(** * ShoreSquad service worker (sw.js): offline cache manager

    A shallow embedding of the service worker of ShoreSquad: its [install],
    [activate], [fetch] and [push] listeners, written over a small model of
    the interfaces the worker calls (Cache Storage, [fetch], the console,
    notifications).  The listeners follow the source line by line; the
    interfaces are the part of the browser the source relies on, and each
    operation carries a note saying what it stands for. *)

From stdpp Require Import gmap strings list fin_maps.

Local Open Scope Z_scope.
Local Open Scope string_scope.

(** ** Values that cross the worker's interfaces *)

(** [Response.type] of the Fetch standard. *)
Inductive ResponseType :=
  | RBasic | RCors | RDefault | RError | ROpaque | ROpaqueRedirect.

#[global] Instance ResponseType_eq_dec : EqDecision ResponseType.
Proof. solve_decision. Defined.

(** A request as the listeners see it: [event.request.method] and the URL
    that Cache Storage uses as the key of an entry. *)
Record Request := { method : string; url : string }.

(** A response snapshot.  The worker reads [status] and [type] only;
    [content] stands for everything else (headers, body), so that two
    different snapshots can be told apart. *)
Record Response := { status : Z; type : ResponseType; content : string }.

#[global] Instance Request_eq_dec : EqDecision Request.
Proof. solve_decision. Defined.
#[global] Instance Response_eq_dec : EqDecision Response.
Proof. solve_decision. Defined.

(** The Fetch standard gives every opaque, opaque-redirect and error
    response the status 0: a page never sees the status of a response it
    may not read. *)
Definition wf_response (r : Response) : Prop :=
  type r ∈ [RError; ROpaque; ROpaqueRedirect] → status r = 0.

(** The reasons a promise of the model rejects with, or a listener throws. *)
Inductive JsError :=
  | TypeError | SyntaxError | NetworkFailure | QuotaExceededError.

#[global] Instance JsError_eq_dec : EqDecision JsError.
Proof. solve_decision. Defined.

(** A number of JavaScript: a double is NaN, an infinity, or
    [± mantissa * 2 ^ exponent]. *)
Inductive JsNumber :=
  | NaN
  | Infinity (negative : bool)
  | Finite (negative : bool) (mantissa : N) (exponent : Z).

#[local] Set Warnings "-register-all".

(** What [JSON.parse] can produce, and [undefined]. *)
Inductive JsValue :=
  | JUndefined
  | JNull
  | JBool (b : bool)
  | JNumber (n : JsNumber)
  | JString (s : string)
  | JArray (items : list JsValue)
  | JObject (fields : list (string * JsValue)).

(** The [options] object handed to [showNotification]. *)
Record NotificationOptions := {
  body : JsValue;
  icon : string;
  badge : string;
  tag : string;
  requireInteraction : bool
}.

(** ** The world the worker acts on *)

(** Everything a listener does that the outside can observe, in the order
    in which the sequential reading of the listener reaches it. *)
Inductive Event :=
  | CachesMatch (key : string)
  | CachesOpen (name : string)
  | CachesKeys
  | CachesDelete (name : string)
  | CachePut (name key : string) (response : Response)
  | CacheAddAll (name : string) (keys : list string)
  | NetFetch (request : Request)
  | ConsoleLog (line : string)
  | SkipWaiting
  | ClientsClaim
  | ShowNotification (title : string) (options : NotificationOptions)
  | UnhandledRejection (e : JsError).

(** Cache Storage: the cache generations of the origin in creation order,
    each one a map from request key to response snapshot. *)
Record World := {
  storage : list (string * gmap string Response);
  trace : list Event
}.

(** How a promise settles. *)
Inductive Settled (A : Type) :=
  | Fulfilled (a : A)
  | Rejected (e : JsError).
Arguments Fulfilled {A} a.
Arguments Rejected {A} e.

(** What the browser and the network decide, not the worker: how a
    request sent to the network settles ([None] is a fulfilment with a
    falsy value, which line 59 of the source guards against), and whether
    the storage refuses a write. *)
Record Host := {
  network : Request → Settled (option Response);
  store_fault : string → string → Response → option JsError
}.

(** ** Promises *)

(** A promise is run to settlement against the world. *)
Definition Promise (A : Type) : Type := World → Settled A * World.

#[global] Instance Promise_ret : MRet Promise :=
  λ A a w, (Fulfilled a, w).

(** [p.then(f)] *)
#[global] Instance Promise_bind : MBind Promise :=
  λ A B f p w,
    match p w with
    | (Fulfilled a, w') => f a w'
    | (Rejected e, w') => (Rejected e, w')
    end.

(** [p.catch(h)] *)
Definition catch {A} (p : Promise A) (h : JsError → Promise A) : Promise A :=
  λ w,
    match p w with
    | (Fulfilled a, w') => (Fulfilled a, w')
    | (Rejected e, w') => h e w'
    end.

Definition emit (e : Event) : Promise () :=
  λ w, (Fulfilled (), {| storage := storage w; trace := trace w ++ [e] |}).

(** A promise nobody keeps: the statement [p;] of the source.  A rejection
    reaches no handler and is reported by the host as unhandled. *)
Definition detach {A} (p : Promise A) : Promise () :=
  λ w,
    match p w with
    | (Fulfilled _, w') => (Fulfilled (), w')
    | (Rejected e, w') => emit (UnhandledRejection e) w'
    end.

(** [Promise.all(ps)]: every element has been started by the time the
    array exists, so all of them run; the result rejects with the first
    rejection. *)
Fixpoint Promise_all {A} (ps : list (Promise A)) : Promise (list A) :=
  match ps with
  | [] => mret []
  | p :: ps' =>
      λ w,
        let '(r, w1) := p w in
        let '(rs, w2) := Promise_all ps' w1 in
        (match r, rs with
         | Fulfilled a, Fulfilled l => Fulfilled (a :: l)
         | Rejected e, _ => Rejected e
         | Fulfilled _, Rejected e => Rejected e
         end, w2)
  end.

Definition console_log (line : string) : Promise () := emit (ConsoleLog line).

(** ** Cache Storage, the network and notifications *)

(** The cache generation called [name], if it exists. *)
Fixpoint storage_lookup (name : string) (st : list (string * gmap string Response))
  : option (gmap string Response) :=
  match st with
  | [] => None
  | (n, c) :: st' => if String.eqb n name then Some c else storage_lookup name st'
  end.

(** [caches.match(request)] asks every cache generation of the origin in
    creation order and answers with the first entry found. *)
Fixpoint storage_match (key : string) (st : list (string * gmap string Response))
  : option Response :=
  match st with
  | [] => None
  | (_, c) :: st' =>
      match c !! key with
      | Some r => Some r
      | None => storage_match key st'
      end
  end.

(** [caches.open(name)] creates the generation when it does not exist. *)
Definition storage_open (name : string) (st : list (string * gmap string Response))
  : list (string * gmap string Response) :=
  match storage_lookup name st with
  | Some _ => st
  | None => st ++ [(name, ∅)]
  end.

(** [cache.put(request, response)] replaces the entry of the key.  The
    cache object comes from [caches.open], so its generation exists. *)
Fixpoint storage_put (name key : string) (r : Response)
    (st : list (string * gmap string Response))
  : list (string * gmap string Response) :=
  match st with
  | [] => []
  | (n, c) :: st' =>
      if String.eqb n name then (n, <[key := r]> c) :: st'
      else (n, c) :: storage_put name key r st'
  end.

(** [caches.delete(name)] *)
Definition storage_delete (name : string) (st : list (string * gmap string Response))
  : list (string * gmap string Response) :=
  filter (λ g, g.1 ≠ name) st.

(** The entry of [key] in the generation [name]. *)
Definition cache_entry (w : World) (name key : string) : option Response :=
  c ← storage_lookup name (storage w); c !! key.

Definition with_storage (f : list (string * gmap string Response) →
                             list (string * gmap string Response))
    (w : World) : World :=
  {| storage := f (storage w); trace := trace w |}.

Definition caches_match (key : string) : Promise (option Response) :=
  λ w, (Fulfilled (storage_match key (storage w)),
        {| storage := storage w; trace := trace w ++ [CachesMatch key] |}).

(** The cache object is its name: every operation on it goes to the
    generation of that name. *)
Definition caches_open (name : string) : Promise string :=
  λ w, (Fulfilled name,
        {| storage := storage_open name (storage w);
           trace := trace w ++ [CachesOpen name] |}).

Definition caches_keys : Promise (list string) :=
  λ w, (Fulfilled (storage w).*1,
        {| storage := storage w; trace := trace w ++ [CachesKeys] |}).

(** Resolves with whether the generation existed. *)
Definition caches_delete (name : string) : Promise bool :=
  λ w, (Fulfilled (bool_decide (is_Some (storage_lookup name (storage w)))),
        {| storage := storage_delete name (storage w);
           trace := trace w ++ [CachesDelete name] |}).

(** [cache.put]: the write is requested; the storage may refuse it. *)
Definition cache_put (host : Host) (cache : string) (request : Request)
    (response : Response) : Promise () :=
  λ w,
    let w1 := {| storage := storage w;
                 trace := trace w ++ [CachePut cache (url request) response] |} in
    match store_fault host cache (url request) response with
    | Some e => (Rejected e, w1)
    | None => (Fulfilled (), with_storage (storage_put cache (url request) response) w1)
    end.

(** [fetch(request)] *)
Definition fetch (host : Host) (request : Request) : Promise (option Response) :=
  λ w, (network host request,
        {| storage := storage w; trace := trace w ++ [NetFetch request] |}).

(** [response.clone()]: a second snapshot of the same response.  The
    response of a fetch that has just settled has an unread body, the
    case in which [clone] cannot throw. *)
Definition clone (response : Response) : Response := response.

(** [cache.addAll(urls)] fetches every URL and stores the responses in one
    batch.  A response counts when it has an ok status (200 to 299, not
    206) and is not an error response; when one request fails the promise
    rejects with a [TypeError] and nothing is written. *)
Definition addAll_accepts (r : Response) : bool :=
  negb (bool_decide (type r = RError))
  && (200 <=? status r)%Z && (status r <=? 299)%Z && negb (status r =? 206)%Z.

Definition addAll_fetch (host : Host) (u : string) : option Response :=
  match network host {| method := "GET"; url := u |} with
  | Fulfilled (Some r) => if addAll_accepts r then Some r else None
  | _ => None
  end.

Fixpoint batch_fault (host : Host) (cache : string) (entries : list (string * Response))
  : option JsError :=
  match entries with
  | [] => None
  | (u, r) :: entries' =>
      match store_fault host cache u r with
      | Some e => Some e
      | None => batch_fault host cache entries'
      end
  end.

Definition storage_put_all (name : string) (entries : list (string * Response))
    (st : list (string * gmap string Response))
  : list (string * gmap string Response) :=
  foldl (λ acc e, storage_put name e.1 e.2 acc) st entries.

Definition cache_addAll (host : Host) (cache : string) (urls : list string)
  : Promise () :=
  λ w,
    let w1 := {| storage := storage w;
                 trace := trace w ++ CacheAddAll cache urls
                            :: map (λ u, NetFetch {| method := "GET"; url := u |}) urls |} in
    match mapM (addAll_fetch host) urls with
    | None => (Rejected TypeError, w1)
    | Some responses =>
        match batch_fault host cache (zip urls responses) with
        | Some e => (Rejected e, w1)
        | None => (Fulfilled (), with_storage (storage_put_all cache (zip urls responses)) w1)
        end
    end.

(** [self.registration.showNotification(title, options)] *)
Definition showNotification (title : string) (options : NotificationOptions)
  : Promise () :=
  emit (ShowNotification title options).

(** ** The worker *)

Definition CACHE_NAME : string := "shoresquad-v1".

Definition ASSETS_TO_CACHE : list string :=
  [ "/";
    "/index.html";
    "/css/styles.css";
    "/js/app.js";
    "/manifest.json" ].

(** The state of a worker version in the lifecycle the browser drives. *)
Inductive WorkerState :=
  | Installing | Installed | Activating | Activated | Redundant.

(** *** install *)

(** Lines 16-24.  The result is how the promise handed to
    [event.waitUntil] settles. *)
Definition install_listener (host : Host) : World → Settled () * World :=
  λ w,
    let '(lifetime, w1) :=
      (cache ← caches_open CACHE_NAME;
       console_log "Caching app shell";;
       cache_addAll host cache ASSETS_TO_CACHE) w in
    let '(_, w2) := emit SkipWaiting w1 in
    (lifetime, w2).

(** *** activate *)

(** Lines 27-41.  The callback of [map] answers with the promise of
    [caches.delete] for a stale name and with [undefined] for the current
    one. *)
Definition activate_listener : World → Settled (list (option bool)) * World :=
  λ w,
    let '(lifetime, w1) :=
      (cacheNames ← caches_keys;
       Promise_all
         (map (λ cacheName,
                 if negb (String.eqb cacheName CACHE_NAME) then
                   console_log ("Deleting old cache: " ++ cacheName);;
                   deleted ← caches_delete cacheName;
                   mret (Some deleted)
                 else mret None)
              cacheNames)) w in
    let '(_, w2) := emit ClientsClaim w1 in
    (lifetime, w2).

(** *** The lifecycle around the two listeners *)

(** The browser's Install step: a rejected lifetime promise makes the
    version redundant. *)
Definition install (host : Host) : World → WorkerState * World :=
  λ w,
    match install_listener host w with
    | (Fulfilled _, w') => (Installed, w')
    | (Rejected _, w') => (Redundant, w')
    end.

(** The browser's Activate step; it ends in [Activated] however the
    lifetime promise settles. *)
Definition activate : World → WorkerState * World :=
  λ w, let '(_, w') := activate_listener w in (Activated, w').

(** A new version of the worker arrives.  The install listener has called
    [skipWaiting], so an installed version is activated at once. *)
Definition register (host : Host) : World → WorkerState * World :=
  λ w,
    match install host w with
    | (Installed, w1) => activate w1
    | (s, w1) => (s, w1)
    end.

(** *** fetch *)

(** Line 59: [!response || response.status !== 200 || response.type === 'error'] *)
Definition not_cacheable (response : option Response) : bool :=
  match response with
  | None => true
  | Some r => negb (status r =? 200)%Z || bool_decide (type r = RError)
  end.

(** Lines 44-76.  [None]: the listener returns before [respondWith];
    [Some p]: it calls [event.respondWith(p)]. *)
Definition fetch_listener (host : Host) (request : Request)
  : option (Promise (option Response)) :=
  if negb (String.eqb (method request) "GET") then None
  else Some (
    response ← caches_match (url request);
    match response with
    | Some cached => mret (Some cached)
    | None =>
        catch
          (response ← fetch host request;
           match response with
           | Some r =>
               if not_cacheable response then mret response
               else
                 let responseToCache := clone r in
                 detach (cache ← caches_open CACHE_NAME;
                         detach (cache_put host cache request responseToCache));;
                 mret response
           | None => mret response
           end)
          (λ _, caches_match "/index.html")
    end).

(** What the page that issued the request gets. *)
Inductive FetchResult :=
  | ToNetwork (request : Request)
  | Responded (response : Response)
  | NetworkError.

(** The browser's Handle Fetch around the listener: without
    [respondWith] the request goes to the network as it is; a promise that
    does not fulfil with a response is a network error for the page. *)
Definition handle_fetch (host : Host) (request : Request)
  : World → FetchResult * World :=
  λ w,
    match fetch_listener host request with
    | None => (ToNetwork request, w)
    | Some p =>
        match p w with
        | (Fulfilled (Some r), w') => (Responded r, w')
        | (Fulfilled None, w') => (NetworkError, w')
        | (Rejected _, w') => (NetworkError, w')
        end
    end.

(** *** push *)

(** How an expression of the listener completes. *)
Inductive Completion (A : Type) :=
  | Normal (a : A)
  | Throw (e : JsError).
Arguments Normal {A} a.
Arguments Throw {A} e.

(** [event.data] of a push event that has a payload, seen through the
    one method the worker calls: [json] is the completion of
    [event.data.json()], a [SyntaxError] when the payload is not JSON. *)
Record PushMessageData := { json : Completion JsValue }.

Definition number_is_zero (n : JsNumber) : bool :=
  match n with
  | Finite _ m _ => (m =? 0)%N
  | _ => false
  end.

(** Truthiness: what [||] tests. *)
Definition ToBoolean (v : JsValue) : bool :=
  match v with
  | JUndefined | JNull => false
  | JBool b => b
  | JNumber NaN => false
  | JNumber n => negb (number_is_zero n)
  | JString s => negb (String.eqb s "")
  | JArray _ | JObject _ => true
  end.

(** [a || b] *)
Definition or_else (a b : JsValue) : JsValue :=
  if ToBoolean a then a else b.

Fixpoint own_property (key : string) (fields : list (string * JsValue))
  : option JsValue :=
  match fields with
  | [] => None
  | (k, v) :: fields' => if String.eqb k key then Some v else own_property key fields'
  end.

(** [data.body]: a [TypeError] on [null] and [undefined]; no prototype
    has a property of that name, so only an object's own field counts. *)
Definition get_body (data : JsValue) : Completion JsValue :=
  match data with
  | JUndefined | JNull => Throw TypeError
  | JObject fields => Normal (default JUndefined (own_property "body" fields))
  | _ => Normal JUndefined
  end.

Definition DEFAULT_BODY : string := "New update from ShoreSquad!".

Definition quote : string := String (Ascii.ascii_of_nat 34) "".

Definition WAVE_ICON : string :=
  "data:image/svg+xml,<svg xmlns=" ++ quote ++ "http://www.w3.org/2000/svg" ++ quote
  ++ " viewBox=" ++ quote ++ "0 0 100 100" ++ quote
  ++ "><text y=" ++ quote ++ "50" ++ quote
  ++ " font-size=" ++ quote ++ "50" ++ quote
  ++ " text-anchor=" ++ quote ++ "middle" ++ quote
  ++ " dominant-baseline=" ++ quote ++ "middle" ++ quote
  ++ ">🌊</text></svg>".

(** Lines 79-92.  [Throw e]: the listener throws before it reaches
    [waitUntil]; [Normal s]: the lifetime promise settles as [s]. *)
Definition push_listener (event_data : option PushMessageData)
  : World → Completion (Settled ()) * World :=
  λ w,
    match (match event_data with
           | Some d => json d
           | None => Normal (JObject [])
           end) with
    | Throw e => (Throw e, w)
    | Normal data =>
        match get_body data with
        | Throw e => (Throw e, w)
        | Normal data_body =>
            let options :=
              {| body := or_else data_body (JString DEFAULT_BODY);
                 icon := WAVE_ICON;
                 badge := WAVE_ICON;
                 tag := "shoresquad-notification";
                 requireInteraction := false |} in
            let '(lifetime, w') := showNotification "ShoreSquad" options w in
            (Normal lifetime, w')
        end
    end.

(** ** Sample hosts, responses and worlds *)

Definition page_response : Response :=
  {| status := 200; type := RBasic; content := "<!DOCTYPE html>" |}.

Definition missing_response : Response :=
  {| status := 404; type := RBasic; content := "Not Found" |}.

Definition opaque_response : Response :=
  {| status := 0; type := ROpaque; content := "" |}.

Definition stale_response : Response :=
  {| status := 200; type := RBasic; content := "last year's events" |}.

(** Every request is answered with the page, every write accepted. *)
Definition host_online : Host :=
  {| network := λ _, Fulfilled (Some page_response);
     store_fault := λ _ _ _, None |}.

(** No request gets through. *)
Definition host_offline : Host :=
  {| network := λ _, Rejected NetworkFailure;
     store_fault := λ _ _ _, None |}.

(** The network works, the storage is full. *)
Definition host_quota : Host :=
  {| network := λ _, Fulfilled (Some page_response);
     store_fault := λ _ _ _, Some QuotaExceededError |}.

(** The stylesheet is gone from the server. *)
Definition host_broken_deploy : Host :=
  {| network := λ request,
       if String.eqb (url request) "/css/styles.css"
       then Fulfilled (Some missing_response)
       else Fulfilled (Some page_response);
     store_fault := λ _ _ _, None |}.

Definition get (u : string) : Request := {| method := "GET"; url := u |}.
Definition post (u : string) : Request := {| method := "POST"; url := u |}.

Definition world_empty : World := {| storage := []; trace := [] |}.

(** The current generation holds the main document. *)
Definition world_shell : World :=
  {| storage := [(CACHE_NAME, {[ "/index.html" := page_response ]})];
     trace := [] |}.

(** A generation of an earlier version is still there, and only it holds
    ["/events.json"]. *)
Definition world_stale : World :=
  {| storage := [("shoresquad-v0", {[ "/events.json" := stale_response ]});
                 (CACHE_NAME, {[ "/index.html" := page_response ]})];
     trace := [] |}.

(** The notification of the push listener, for a given body. *)
Definition options_with_body (b : JsValue) : NotificationOptions :=
  {| body := b;
     icon := WAVE_ICON;
     badge := WAVE_ICON;
     tag := "shoresquad-notification";
     requireInteraction := false |}.

(** A payload that is not JSON: [event.data.json()] throws. *)
Definition garbled_payload : PushMessageData := {| json := Throw SyntaxError |}.

(** The payload [{"body": ""}]. *)
Definition empty_body_payload : PushMessageData :=
  {| json := Normal (JObject [("body", JString "")]) |}.

(** The payload [{"body": "Cleanup starts in 1 hour!"}]. *)
Definition reminder_payload : PushMessageData :=
  {| json := Normal (JObject [("body", JString "Cleanup starts in 1 hour!")]) |}.

(** The payload [null]. *)
Definition null_payload : PushMessageData := {| json := Normal JNull |}.

(** ** notificationclick *)

(** A client of [clients.matchAll({ type: 'window' })]: its [url], and
    whether it has a [focus] method (['focus' in client]). *)
Module WindowClient.
Record t := { url : string; focus : bool }.
End WindowClient.

(** What the listener asks of the browser. *)
Inductive ClickAction :=
  | NotificationClose
  | ClientFocus (index : nat)
  | OpenWindow (url : string).

(** Lines 99-104: the loop over [clientList] from index [i] on; the index
    of the client whose [focus()] the callback returns. *)
Fixpoint first_root_client (i : nat) (clientList : list WindowClient.t) : option nat :=
  match clientList with
  | [] => None
  | client :: clientList' =>
      if String.eqb (WindowClient.url client) "/" && WindowClient.focus client
      then Some i
      else first_root_client (S i) clientList'
  end.

(** Lines 95-110.  [openWindow] tells whether [clients.openWindow] is
    there (line 105). *)
Definition notificationclick_listener (clientList : list WindowClient.t)
    (openWindow : bool) : list ClickAction :=
  NotificationClose ::
  match first_root_client 0 clientList with
  | Some i => [ClientFocus i]
  | None => if openWindow then [OpenWindow "/"] else []
  end.

(** The site open in two tabs, as a browser reports them: with their
    absolute URLs. *)
Definition two_tabs : list WindowClient.t :=
  [ {| WindowClient.url := "https://shoresquad.app/"; WindowClient.focus := true |};
    {| WindowClient.url := "https://shoresquad.app/#events"; WindowClient.focus := true |} ].

(** Clients as the listener expects them. *)
Definition root_tabs : list WindowClient.t :=
  [ {| WindowClient.url := "/events"; WindowClient.focus := true |};
    {| WindowClient.url := "/"; WindowClient.focus := false |};
    {| WindowClient.url := "/"; WindowClient.focus := true |};
    {| WindowClient.url := "/"; WindowClient.focus := true |} ].

(** ** The page script (app.js): dark mode *)

(** The part of the page that the theme code reads and writes:
    [app.darkMode], [document.documentElement.style.colorScheme] (empty
    until set), the item ['darkMode'] of [localStorage], and the text of
    the button [#toggleThemeBtn] when the document has one. *)
Record Page := {
  darkMode : bool;
  colorScheme : string;
  stored_darkMode : option string;
  toggleThemeBtn : option string
}.

(** [String(b)], what [localStorage.setItem] stores for a boolean. *)
Definition bool_to_string (b : bool) : string :=
  if b then "true" else "false".

(** Lines 294-303. *)
Definition toggleDarkMode (page : Page) : Page :=
  let darkMode' := negb (darkMode page) in
  {| darkMode := darkMode';
     colorScheme := if darkMode' then "dark" else "light";
     stored_darkMode := Some (bool_to_string darkMode');
     toggleThemeBtn :=
       match toggleThemeBtn page with
       | Some _ => Some (if darkMode' then "☀️ Light Mode" else "🌙 Dark Mode")
       | None => None
       end |}.

(** Lines 9-20: the page as the script finds it, [prefers_dark] being
    [matchMedia('(prefers-color-scheme: dark)').matches] and [button] the
    text the document gives the theme button. *)
Definition initial_page (stored : option string) (prefers_dark : bool)
    (button : option string) : Page :=
  {| darkMode :=
       match stored with
       | Some value => String.eqb value "true"
       | None => false
       end || prefers_dark;
     colorScheme := "";
     stored_darkMode := stored;
     toggleThemeBtn := button |}.

(** Lines 25-30, as far as the theme goes: the three calls before line 29
    leave these four fields alone. *)
Definition DOMContentLoaded (page : Page) : Page :=
  if darkMode page then toggleDarkMode page else page.

(** A visit: the script starts on what the last visit stored. *)
Definition visit (stored : option string) (prefers_dark : bool)
    (button : option string) : Page :=
  DOMContentLoaded (initial_page stored prefers_dark button).

(** ** The page script (app.js): the weather cards *)

#[global] Instance Completion_ret : MRet Completion := λ A a, Normal a.

#[global] Instance Completion_bind : MBind Completion :=
  λ A B f c,
    match c with
    | Normal a => f a
    | Throw e => Throw e
    end.

(** [text.toLowerCase()].  A string holds its text in UTF-8; the letters
    A to Z are the only characters whose lower case the search words below
    can meet. *)
Definition toLowerCase_ascii (c : Ascii.ascii) : Ascii.ascii :=
  let n := Ascii.nat_of_ascii c in
  if ((65 <=? n) && (n <=? 90))%nat then Ascii.ascii_of_nat (n + 32) else c.

Fixpoint toLowerCase (text : string) : string :=
  match text with
  | "" => ""
  | String c text' => String (toLowerCase_ascii c) (toLowerCase text')
  end.

(** [text.includes(search)] *)
Fixpoint includes (text search : string) : bool :=
  if String.prefix search text then true
  else match text with
       | "" => false
       | String _ text' => includes text' search
       end.

(** Lines 232-239. *)
Definition determineForecastIcon (forecastText : string) : string :=
  let text := toLowerCase forecastText in
  if includes text "rain" || includes text "thundery" then "🌧️"
  else if includes text "partly" || includes text "cloudy" then "⛅"
  else if includes text "sunny" || includes text "fair" then "☀️"
  else if includes text "overcast" then "☁️"
  else "🌤️".

(** One element of the array that [renderWeatherCards] gets.  The cards
    of [getMockWeatherData] have no [date] and no [dayIndex]. *)
Module WeatherCard.
Record t := {
  location : string;
  date : option string;
  dayIndex : option nat;
  forecast : JsValue;
  tempMin : JsValue;
  tempMax : JsValue;
  humidity : JsValue;
  humidityLow : JsValue;
  windSpeed : JsValue;
  windDirection : JsValue;
  condition : string
}.
End WeatherCard.

(** The number [n]. *)
Definition number (n : N) : JsValue := JNumber (Finite false n 0).

(** Lines 241-289. *)
Definition getMockWeatherData : list WeatherCard.t :=
  [ {| WeatherCard.location := "Singapore - Today";
       WeatherCard.date := None;
       WeatherCard.dayIndex := None;
       WeatherCard.forecast := JString "Sunny";
       WeatherCard.tempMin := number 24;
       WeatherCard.tempMax := number 32;
       WeatherCard.humidity := number 75;
       WeatherCard.humidityLow := number 60;
       WeatherCard.windSpeed := number 15;
       WeatherCard.windDirection := JString "NE";
       WeatherCard.condition := "☀️" |};
    {| WeatherCard.location := "Singapore - Tomorrow";
       WeatherCard.date := None;
       WeatherCard.dayIndex := None;
       WeatherCard.forecast := JString "Partly Cloudy";
       WeatherCard.tempMin := number 23;
       WeatherCard.tempMax := number 31;
       WeatherCard.humidity := number 78;
       WeatherCard.humidityLow := number 65;
       WeatherCard.windSpeed := number 12;
       WeatherCard.windDirection := JString "NE";
       WeatherCard.condition := "⛅" |};
    {| WeatherCard.location := "Singapore - Day 3";
       WeatherCard.date := None;
       WeatherCard.dayIndex := None;
       WeatherCard.forecast := JString "Thundery Showers";
       WeatherCard.tempMin := number 23;
       WeatherCard.tempMax := number 30;
       WeatherCard.humidity := number 85;
       WeatherCard.humidityLow := number 70;
       WeatherCard.windSpeed := number 18;
       WeatherCard.windDirection := JString "SW";
       WeatherCard.condition := "🌧️" |};
    {| WeatherCard.location := "Singapore - Day 4";
       WeatherCard.date := None;
       WeatherCard.dayIndex := None;
       WeatherCard.forecast := JString "Fair";
       WeatherCard.tempMin := number 24;
       WeatherCard.tempMax := number 32;
       WeatherCard.humidity := number 72;
       WeatherCard.humidityLow := number 58;
       WeatherCard.windSpeed := number 14;
       WeatherCard.windDirection := JString "NE";
       WeatherCard.condition := "🌤️" |} ].

(** [v.key] for the keys this script reads from the forecast ([items],
    [forecasts], [temperature], [low], ...): no prototype has a property
    of such a name, so an object answers with its own field, every other
    value with [undefined], and [null] and [undefined] throw. *)
Definition get_field (v : JsValue) (key : string) : Completion JsValue :=
  match v with
  | JUndefined | JNull => Throw TypeError
  | JObject fields => Normal (default JUndefined (own_property key fields))
  | _ => Normal JUndefined
  end.

(** [v[0]]: the first element of an array, the first character of a
    string, the field ["0"] of an object. *)
Definition index0 (v : JsValue) : Completion JsValue :=
  match v with
  | JUndefined | JNull => Throw TypeError
  | JArray items => Normal (default JUndefined (head items))
  | JString "" => Normal JUndefined
  | JString (String c _) => Normal (JString (String c ""))
  | JObject fields => Normal (default JUndefined (own_property "0" fields))
  | _ => Normal JUndefined
  end.

(** [v.length === 0], for a truthy [v]. *)
Definition length_is_0 (v : JsValue) : bool :=
  match v with
  | JArray items => bool_decide (items = [])
  | JString s => String.eqb s ""
  | JObject fields =>
      match own_property "length" fields with
      | Some (JNumber n) => number_is_zero n
      | _ => false
      end
  | _ => false
  end.

(** The call [determineForecastIcon(v)]: on anything but a string,
    [forecastText.toLowerCase] is not a function. *)
Definition determineForecastIcon_call (v : JsValue) : Completion string :=
  match v with
  | JString forecastText => Normal (determineForecastIcon forecastText)
  | _ => Throw TypeError
  end.

(** Lines 202-228, the callback of [map].  [toLocaleDateString] stands
    for [new Date(timestamp).toLocaleDateString('en-SG', ...)], which the
    browser's locale data decides. *)
Definition forecast_card (toLocaleDateString : JsValue → string)
    (item : JsValue) (index : nat) : Completion WeatherCard.t :=
  forecasts ← get_field item "forecasts";
  first ← index0 forecasts;
  let forecast := or_else first (JObject []) in
  temperature ← get_field forecast "temperature";
  let tempData := or_else temperature (JObject []) in
  relative_humidity ← get_field forecast "relative_humidity";
  let humidityData := or_else relative_humidity (JObject []) in
  wind ← get_field forecast "wind";
  let windData := or_else wind (JObject []) in
  timestamp ← get_field item "timestamp";
  let dateString := toLocaleDateString timestamp in
  forecast_forecast ← get_field forecast "forecast";
  tempData_low ← get_field tempData "low";
  tempData_high ← get_field tempData "high";
  humidityData_high ← get_field humidityData "high";
  humidityData_low ← get_field humidityData "low";
  windData_speed ← get_field windData "speed";
  speed ← (if ToBoolean windData_speed then get_field windData_speed "high"
           else mret (JString "--"));
  windData_direction ← get_field windData "direction";
  icon ← determineForecastIcon_call (or_else forecast_forecast (JString ""));
  mret {| WeatherCard.location := "Singapore - " ++ dateString;
          WeatherCard.date := Some dateString;
          WeatherCard.dayIndex := Some (index + 1)%nat;
          WeatherCard.forecast := or_else forecast_forecast (JString "No forecast");
          WeatherCard.tempMin := or_else tempData_low (JString "--");
          WeatherCard.tempMax := or_else tempData_high (JString "--");
          WeatherCard.humidity := or_else humidityData_high (JString "--");
          WeatherCard.humidityLow := or_else humidityData_low (JString "--");
          WeatherCard.windSpeed := speed;
          WeatherCard.windDirection := or_else windData_direction (JString "N/A");
          WeatherCard.condition := icon |}.

(** [items.map(callback)] from index [index] on: the callback runs on
    every element, and the first throw ends the call. *)
Fixpoint map_items (toLocaleDateString : JsValue → string)
    (items : list JsValue) (index : nat) : Completion (list WeatherCard.t) :=
  match items with
  | [] => mret []
  | item :: items' =>
      card ← forecast_card toLocaleDateString item index;
      cards ← map_items toLocaleDateString items' (S index);
      mret (card :: cards)
  end.

(** Lines 196-230.  Only an array has a [map] to call. *)
Definition processWeatherData (toLocaleDateString : JsValue → string)
    (apiData : JsValue) : Completion (list WeatherCard.t) :=
  apiData_items ← get_field apiData "items";
  if negb (ToBoolean apiData_items) || length_is_0 apiData_items
  then mret getMockWeatherData
  else
    match apiData_items with
    | JArray items =>
        cards ← map_items toLocaleDateString items 0;
        mret (take 4 cards)
    | _ => Throw TypeError
    end.

(** Lines 179-194.  [data] is how
    [fetch(forecastUrl).then(response => response.json())] settles; the
    result is what the one call of [renderWeatherCards] is given, and the
    error that went to [console.error], if any. *)
Definition loadWeatherData (toLocaleDateString : JsValue → string)
    (data : Settled JsValue) : option JsError * list WeatherCard.t :=
  match data with
  | Fulfilled apiData =>
      match processWeatherData toLocaleDateString apiData with
      | Normal forecastData => (None, forecastData)
      | Throw error => (Some error, getMockWeatherData)
      end
  | Rejected error => (Some error, getMockWeatherData)
  end.

(** A date formatter for the examples: the timestamp as it is. *)
Definition plain_date (timestamp : JsValue) : string :=
  match timestamp with
  | JString s => s
  | _ => "Invalid Date"
  end.

(** One day of the forecast as the API sends it. *)
Definition api_day (timestamp text : string) : JsValue :=
  JObject [("timestamp", JString timestamp);
           ("forecasts",
            JArray [JObject [("forecast", JString text);
                             ("temperature",
                              JObject [("low", number 24); ("high", number 33)]);
                             ("relative_humidity",
                              JObject [("low", number 55); ("high", number 90)]);
                             ("wind",
                              JObject [("speed",
                                        JObject [("low", number 10); ("high", number 20)]);
                                       ("direction", JString "NNE")])]])].

(** A day without its [forecasts]. *)
Definition api_day_broken : JsValue := JObject [("timestamp", JString "2025-12-12")].

(** The answer of the API with the given days. *)
Definition api_answer (days : list JsValue) : JsValue :=
  JObject [("api_info", JObject [("status", JString "healthy")]);
           ("items", JArray days)].

(** Five days, the fifth without its [forecasts]. *)
Definition five_days_last_broken : list JsValue :=
  [ api_day "2025-12-07" "Fair and warm";
    api_day "2025-12-08" "Partly cloudy";
    api_day "2025-12-09" "Thundery showers";
    api_day "2025-12-10" "Overcast";
    api_day_broken ].

(** Six good days. *)
Definition six_days : list JsValue :=
  [ api_day "2025-12-07" "Fair and warm";
    api_day "2025-12-08" "Partly cloudy";
    api_day "2025-12-09" "Thundery showers";
    api_day "2025-12-10" "Overcast";
    api_day "2025-12-11" "Windy";
    api_day "2025-12-12" "Light rain" ].

(** What [processWeatherData] makes of the six good days. *)
Definition six_days_cards : list WeatherCard.t :=
  Eval vm_compute in
    match processWeatherData plain_date (api_answer six_days) with
    | Normal cards => cards
    | Throw _ => []
    end.

(** A day that says almost nothing: a low of 0 and no more. *)
Definition api_blank_day : JsValue :=
  JObject [("forecasts",
            JArray [JObject [("temperature", JObject [("low", number 0)])]])].

Definition blank_day_card : WeatherCard.t :=
  {| WeatherCard.location := "Singapore - Invalid Date";
     WeatherCard.date := Some "Invalid Date";
     WeatherCard.dayIndex := Some 1%nat;
     WeatherCard.forecast := JString "No forecast";
     WeatherCard.tempMin := JString "--";
     WeatherCard.tempMax := JString "--";
     WeatherCard.humidity := JString "--";
     WeatherCard.humidityLow := JString "--";
     WeatherCard.windSpeed := JString "--";
     WeatherCard.windDirection := JString "N/A";
     WeatherCard.condition := "🌤️" |}.

(** A response that [cache.addAll] stores: an ok status (200 to 299),
    not 206, and not an error response. *)
Definition ok_response (r : Response) : Prop :=
  (200 ≤ status r ≤ 299)%Z ∧ status r ≠ 206%Z ∧ type r ≠ RError.

(** ** Reading a run *)

(** The events a run added to the trace it started from. *)
Definition new_events (w w' : World) : list Event :=
  drop (length (trace w)) (trace w').

(** [w] after the events [evs], the storage untouched. *)
Definition after (w : World) (evs : list Event) : World :=
  {| storage := storage w; trace := trace w ++ evs |}.

(** The generations a run asked Cache Storage to delete, in order. *)
Definition deleted (evs : list Event) : list string :=
  omap (λ e, match e with CachesDelete n => Some n | _ => None end) evs.

(** Lines 31-36, the callback of [map] in the activate listener. *)
Definition delete_if_stale (cacheName : string) : Promise (option bool) :=
  if negb (String.eqb cacheName CACHE_NAME) then
    console_log ("Deleting old cache: " ++ cacheName);;
    deleted ← caches_delete cacheName;
    mret (Some deleted)
  else mret None.

(** The world after lines 64-67 of the fetch listener: the store is
    requested, and written unless the storage refuses it. *)
Definition stored (host : Host) (request : Request) (r : Response) (w : World)
  : World :=
  let requested :=
    [CachesMatch (url request); NetFetch request; CachesOpen CACHE_NAME;
     CachePut CACHE_NAME (url request) r] in
  match store_fault host CACHE_NAME (url request) r with
  | None =>
      {| storage := storage_put CACHE_NAME (url request) r
                      (storage_open CACHE_NAME (storage w));
         trace := trace w ++ requested |}
  | Some e =>
      {| storage := storage_open CACHE_NAME (storage w);
         trace := trace w ++ requested ++ [UnhandledRejection e] |}
  end.

(** The world after an install whose fetches brought [responses] and
    whose batch the storage took. *)
Definition installed (responses : list Response) (w : World) : World :=
  {| storage := storage_put_all CACHE_NAME (zip ASSETS_TO_CACHE responses)
                  (storage_open CACHE_NAME (storage w));
     trace := trace w ++
       [CachesOpen CACHE_NAME; ConsoleLog "Caching app shell";
        CacheAddAll CACHE_NAME ASSETS_TO_CACHE]
       ++ map (λ u, NetFetch {| method := "GET"; url := u |}) ASSETS_TO_CACHE
       ++ [SkipWaiting] |}.

(** The storage refuses every write of the stylesheet. *)
Definition host_no_room_for_css : Host :=
  {| network := λ _, Fulfilled (Some page_response);
     store_fault := λ _ key _,
       if String.eqb key "/css/styles.css" then Some QuotaExceededError else None |}.

(** The current generation holds a page that is not part of the manifest. *)
Definition world_visited : World :=
  {| storage := [("shoresquad-v0", {[ "/events.json" := stale_response ]});
                 (CACHE_NAME, {[ "/about.html" := stale_response ]})];
     trace := [] |}.

(** * Properties *)

(** ** Cache Storage *)

Lemma new_events_app w st evs :
  new_events w {| storage := st; trace := trace w ++ evs |} = evs.
Proof. unfold new_events; simpl. by rewrite drop_app_length. Qed.

Lemma storage_match_None key st :
  storage_match key st = None ↔ Forall (λ g, g.2 !! key = None) st.
Proof.
  induction st as [|[n c] st IH]; simpl.
  - split; [constructor | done].
  - destruct (c !! key) as [r|] eqn:Hc.
    + split; [done | intros H; inversion H; simplify_eq/=].
    + rewrite IH. split; [by constructor | by inversion 1].
Qed.

(** A hit is the entry of the first generation, in creation order, that
    holds the key. *)
Lemma storage_match_Some key st r :
  storage_match key st = Some r ↔
  ∃ older n c newer,
    st = (older ++ (n, c) :: newer)%list
    ∧ Forall (λ g, g.2 !! key = None) older
    ∧ c !! key = Some r.
Proof.
  induction st as [|[n c] st IH]; simpl.
  - split; [done | intros ([|? ?] & ? & ? & ? & ? & _); done].
  - destruct (c !! key) as [r'|] eqn:Hc.
    + split.
      * intros [= ->]. by exists [], n, c, st.
      * intros ([|[n0 c0] older] & n1 & c1 & newer & Heq & Hold & Hr); simplify_eq/=.
        -- done.
        -- inversion Hold; simplify_eq/=.
    + rewrite IH. split.
      * intros (older & n1 & c1 & newer & -> & Hold & Hr).
        exists ((n, c) :: older), n1, c1, newer. split_and!; [done | by constructor | done].
      * intros ([|[n0 c0] older] & n1 & c1 & newer & Heq & Hold & Hr); simplify_eq/=.
        exists older, n1, c1, newer. split_and!; [done | by inversion Hold | done].
Qed.

Lemma storage_match_is_Some key st :
  is_Some (storage_match key st) ↔ ∃ n c, (n, c) ∈ st ∧ is_Some (c !! key).
Proof.
  split.
  - intros [r (older & n & c & newer & -> & _ & Hr)%storage_match_Some].
    exists n, c. split; [set_solver | by exists r].
  - intros (n & c & Hin & Hc).
    destruct (storage_match key st) as [r|] eqn:Hm; [by exists r |].
    apply storage_match_None in Hm. rewrite Forall_forall in Hm.
    apply Hm in Hin. simpl in Hin. rewrite Hin in Hc. by destruct Hc.
Qed.

Lemma storage_lookup_cons name n c st :
  storage_lookup name ((n, c) :: st) =
  if String.eqb n name then Some c else storage_lookup name st.
Proof. reflexivity. Qed.

Lemma storage_lookup_None name (st : list (string * gmap string Response)) :
  storage_lookup name st = None ↔ name ∉ st.*1.
Proof.
  induction st as [|[n c] st IH]; [by split; [intros _; apply not_elem_of_nil |] |].
  rewrite storage_lookup_cons. cbn [fmap list_fmap fst]. rewrite not_elem_of_cons.
  destruct (String.eqb n name) eqn:Hn.
  - apply String.eqb_eq in Hn as ->. split; [done | by intros [? _]].
  - apply String.eqb_neq in Hn. rewrite IH. split; [by split | by intros [_ ?]].
Qed.

Lemma storage_lookup_elem_of name st c :
  storage_lookup name st = Some c → (name, c) ∈ st.
Proof.
  induction st as [|[n c0] st IH]; simpl; [done |].
  destruct (String.eqb n name) eqn:Hn.
  - apply String.eqb_eq in Hn as ->. intros [= ->]. set_solver.
  - intros ?%IH. set_solver.
Qed.

(** A miss of [caches.match] is a miss in every generation. *)
Lemma storage_match_None_cache_entry key w name :
  storage_match key (storage w) = None → cache_entry w name key = None.
Proof.
  intros Hm. unfold cache_entry.
  destruct (storage_lookup name (storage w)) as [c|] eqn:Hc; simpl; [|done].
  apply storage_lookup_elem_of in Hc.
  apply storage_match_None in Hm. rewrite Forall_forall in Hm.
  by apply Hm in Hc.
Qed.

Lemma storage_lookup_app name st st' :
  storage_lookup name (st ++ st') =
  match storage_lookup name st with
  | Some c => Some c
  | None => storage_lookup name st'
  end.
Proof.
  induction st as [|[n c] st IH]; simpl; [done |].
  by destruct (String.eqb n name).
Qed.

Lemma storage_lookup_open name st :
  storage_lookup name (storage_open name st) =
  Some (default ∅ (storage_lookup name st)).
Proof.
  unfold storage_open.
  destruct (storage_lookup name st) as [c|] eqn:Hc; simpl; [done |].
  rewrite storage_lookup_app, Hc. simpl. by rewrite String.eqb_refl.
Qed.

Lemma storage_lookup_open_ne name other st :
  other ≠ name →
  storage_lookup other (storage_open name st) = storage_lookup other st.
Proof.
  intros Hne. unfold storage_open.
  destruct (storage_lookup name st) as [c|] eqn:Hc; [done |].
  rewrite storage_lookup_app.
  destruct (storage_lookup other st); [done |]. simpl.
  destruct (String.eqb name other) eqn:Heq; [|done].
  apply String.eqb_eq in Heq. congruence.
Qed.

Lemma storage_lookup_put name key r st :
  storage_lookup name (storage_put name key r st) =
  (λ c, <[key := r]> c) <$> storage_lookup name st.
Proof.
  induction st as [|[n c] st IH]; simpl; [done |].
  destruct (String.eqb n name) eqn:Hn; simpl; rewrite Hn; done.
Qed.

Lemma storage_lookup_put_ne name other key r st :
  other ≠ name →
  storage_lookup other (storage_put name key r st) = storage_lookup other st.
Proof.
  intros Hne. induction st as [|[n c] st IH]; simpl; [done |].
  destruct (String.eqb n name) eqn:Hn; simpl.
  - apply String.eqb_eq in Hn as ->.
    destruct (String.eqb name other) eqn:Heq; [|done].
    apply String.eqb_eq in Heq. congruence.
  - by rewrite IH.
Qed.

(** After [caches.open(name)] and a [put] that the storage accepts, the
    generation holds the response under the key. *)
Lemma storage_open_put_entry name key r st :
  (storage_lookup name (storage_put name key r (storage_open name st)))
    ≫= (λ c, c !! key) = Some r.
Proof.
  rewrite storage_lookup_put, storage_lookup_open. simpl.
  apply lookup_insert_eq.
Qed.

(** ** Handle Fetch, path by path *)

Section HandleFetch.
Context (host : Host) (request : Request) (w : World).

Lemma handle_fetch_not_get :
  method request ≠ "GET" → handle_fetch host request w = (ToNetwork request, w).
Proof.
  intros Hm. unfold handle_fetch, fetch_listener.
  destruct (String.eqb (method request) "GET") eqn:Heq; [|done].
  by apply String.eqb_eq in Heq.
Qed.

Hypothesis is_get : method request = "GET".

Lemma handle_fetch_hit cached :
  storage_match (url request) (storage w) = Some cached →
  handle_fetch host request w = (Responded cached, after w [CachesMatch (url request)]).
Proof.
  intros Hhit. unfold handle_fetch, fetch_listener. rewrite is_get. simpl.
  unfold mbind, Promise_bind, caches_match. by rewrite Hhit.
Qed.

Hypothesis miss : storage_match (url request) (storage w) = None.

(** The network answers, and line 59 sends the answer straight back. *)
Lemma handle_fetch_miss_skip response :
  network host request = Fulfilled response →
  not_cacheable response = true →
  handle_fetch host request w =
    (match response with Some r => Responded r | None => NetworkError end,
     after w [CachesMatch (url request); NetFetch request]).
Proof.
  intros Hnet Hskip. unfold handle_fetch, fetch_listener. rewrite is_get. simpl.
  unfold mbind, Promise_bind, caches_match, catch, fetch. 
  rewrite miss. simpl. rewrite Hnet.
  destruct response as [r|]; simpl in *.
  - rewrite Hskip. unfold after. simpl. by rewrite <- app_assoc.
  - unfold after. simpl. by rewrite <- app_assoc.
Qed.

Lemma handle_fetch_miss_store r :
  network host request = Fulfilled (Some r) →
  not_cacheable (Some r) = false →
  handle_fetch host request w = (Responded r, stored host request r w).
Proof.
  intros Hnet Hc. unfold handle_fetch, fetch_listener. rewrite is_get. simpl.
  unfold mbind, Promise_bind, caches_match, catch, fetch. 
  rewrite miss. simpl. rewrite Hnet. simpl in *. rewrite Hc.
  unfold detach, caches_open, cache_put, stored, clone, with_storage. simpl.
  destruct (store_fault host CACHE_NAME (url request) r); simpl;
    by rewrite <- !app_assoc.
Qed.

(** The network request rejects. *)
Lemma handle_fetch_offline e :
  network host request = Rejected e →
  handle_fetch host request w =
    (match storage_match "/index.html" (storage w) with
     | Some document => Responded document
     | None => NetworkError
     end,
     after w [CachesMatch (url request); NetFetch request; CachesMatch "/index.html"]).
Proof.
  intros Hnet. unfold handle_fetch, fetch_listener. rewrite is_get. simpl.
  unfold mbind, Promise_bind, caches_match, catch, fetch. 
  rewrite miss. simpl. rewrite Hnet. simpl. unfold after. simpl.
  rewrite <- !app_assoc. simpl.
  by destruct (storage_match "/index.html" (storage w)).
Qed.
End HandleFetch.

Lemma not_cacheable_false r :
  not_cacheable (Some r) = false ↔ status r = 200 ∧ type r ≠ RError.
Proof.
  unfold not_cacheable.
  rewrite orb_false_iff, negb_false_iff, Z.eqb_eq, bool_decide_eq_false. done.
Qed.

Lemma not_cacheable_true r :
  not_cacheable (Some r) = true ↔ ¬ (status r = 200 ∧ type r ≠ RError).
Proof.
  rewrite <- not_cacheable_false. by destruct (not_cacheable (Some r)).
Qed.

(** ** Handle Fetch: the claims *)

(** C3.  A request whose method is not GET is left alone: the listener
    returns before [respondWith], nothing is looked up or written, and the
    browser sends the very same request to the network. *)
Theorem non_get_not_intercepted (host : Host) (request : Request) (w : World) :
  method request ≠ "GET" →
  fetch_listener host request = None
  ∧ handle_fetch host request w = (ToNetwork request, w).
Proof.
  intros Hm. split; [|by apply handle_fetch_not_get].
  unfold fetch_listener.
  destruct (String.eqb (method request) "GET") eqn:Heq; [|done].
  by apply String.eqb_eq in Heq.
Qed.

Lemma non_get_not_intercepted_witness :
  fetch_listener host_online (post "/api/join") = None
  ∧ handle_fetch host_online (post "/api/join") world_shell
    = (ToNetwork (post "/api/join"), world_shell).
Proof. apply (non_get_not_intercepted host_online (post "/api/join") world_shell). done. Defined.

(** C2.  A GET request whose key has an entry in the cache is answered
    with a cached response, and nothing else happens: the only new event
    is the lookup, so no request goes to the network, and the storage is
    as it was. *)
Theorem cache_hit_no_network (host : Host) (request : Request) (w : World) :
  method request = "GET" →
  (∃ n c, (n, c) ∈ storage w ∧ is_Some (c !! url request)) →
  ∃ cached n c,
    (n, c) ∈ storage w ∧ c !! url request = Some cached
    ∧ handle_fetch host request w
      = (Responded cached, after w [CachesMatch (url request)])
    ∧ (∀ q, NetFetch q ∉ new_events w (handle_fetch host request w).2)
    ∧ storage (handle_fetch host request w).2 = storage w.
Proof.
  intros Hget [cached Hhit]%storage_match_is_Some.
  pose proof Hhit as (older & n & c & newer & Hst & _ & Hc)%storage_match_Some.
  exists cached, n, c.
  rewrite (handle_fetch_hit host request w Hget cached Hhit).
  split_and!; [rewrite Hst; set_solver | done | done | | done].
  intros q. simpl. unfold after. rewrite new_events_app.
  by intros ?%list_elem_of_singleton.
Qed.

Lemma cache_hit_no_network_witness :
  ∃ cached n c,
    (n, c) ∈ storage world_shell ∧ c !! "/index.html" = Some cached
    ∧ handle_fetch host_online (get "/index.html") world_shell
      = (Responded cached, after world_shell [CachesMatch "/index.html"])
    ∧ (∀ q, NetFetch q ∉
         new_events world_shell
           (handle_fetch host_online (get "/index.html") world_shell).2)
    ∧ storage (handle_fetch host_online (get "/index.html") world_shell).2
      = storage world_shell.
Proof.
  apply (cache_hit_no_network host_online (get "/index.html") world_shell).
  - reflexivity.
  - exists CACHE_NAME, {[ "/index.html" := page_response ]}.
    split; [apply list_elem_of_here | by exists page_response].
Defined.

(** C9, as the code has it.  Step 1 is [caches.match], which asks every
    cache generation of the origin, not the current one alone: the first
    generation in creation order that holds the key answers, whatever its
    name, and the network is asked only when no generation holds it. *)
Theorem lookup_spans_every_generation (host : Host) (request : Request) (w : World) :
  method request = "GET" →
  (∀ older n c newer cached,
      storage w = (older ++ (n, c) :: newer)%list →
      Forall (λ g, g.2 !! url request = None) older →
      c !! url request = Some cached →
      handle_fetch host request w
      = (Responded cached, after w [CachesMatch (url request)]))
  ∧ ((∀ n c, (n, c) ∈ storage w → c !! url request = None) →
      NetFetch request ∈ new_events w (handle_fetch host request w).2).
Proof.
  intros Hget. split.
  - intros older n c newer cached Hst Hold Hc.
    apply handle_fetch_hit; [done |].
    apply storage_match_Some. by exists older, n, c, newer.
  - intros Hnone.
    assert (storage_match (url request) (storage w) = None) as Hmiss.
    { apply storage_match_None, Forall_forall. intros [n c] Hin. by apply (Hnone n c). }
    destruct (network host request) as [response|e] eqn:Hnet.
    + destruct (not_cacheable response) eqn:Hskip.
      * rewrite (handle_fetch_miss_skip host request w Hget Hmiss response Hnet Hskip).
        simpl. unfold after. rewrite new_events_app.
        apply list_elem_of_further, list_elem_of_here.
      * destruct response as [r|]; [|done].
        rewrite (handle_fetch_miss_store host request w Hget Hmiss r Hnet Hskip).
        simpl. unfold stored.
        destruct (store_fault host CACHE_NAME (url request) r);
          rewrite new_events_app; apply list_elem_of_further, list_elem_of_here.
    + rewrite (handle_fetch_offline host request w Hget Hmiss e Hnet).
      simpl. unfold after. rewrite new_events_app.
      apply list_elem_of_further, list_elem_of_here.
Qed.

Lemma lookup_spans_every_generation_witness :
  (∀ older n c newer cached,
      storage world_stale = (older ++ (n, c) :: newer)%list →
      Forall (λ g, g.2 !! "/events.json" = None) older →
      c !! "/events.json" = Some cached →
      handle_fetch host_offline (get "/events.json") world_stale
      = (Responded cached, after world_stale [CachesMatch "/events.json"]))
  ∧ ((∀ n c, (n, c) ∈ storage world_stale → c !! "/events.json" = None) →
      NetFetch (get "/events.json")
      ∈ new_events world_stale
          (handle_fetch host_offline (get "/events.json") world_stale).2).
Proof.
  apply (lookup_spans_every_generation host_offline (get "/events.json") world_stale).
  reflexivity.
Defined.

(** C9, as the claim has it, fails: ["/events.json"] is held by the
    generation of an earlier version only, the current generation has no
    entry for it, and the request is answered from the cache all the same,
    with the network unreachable. *)
Lemma stale_generation_answers :
  method (get "/events.json") = "GET"
  ∧ cache_entry world_stale CACHE_NAME "/events.json" = None
  ∧ cache_entry world_stale "shoresquad-v0" "/events.json" = Some stale_response
  ∧ handle_fetch host_offline (get "/events.json") world_stale
    = (Responded stale_response, after world_stale [CachesMatch "/events.json"]).
Proof. split_and!; reflexivity. Qed.

Lemma cache_entry_stored_ok host request r w :
  store_fault host CACHE_NAME (url request) r = None →
  cache_entry (stored host request r w) CACHE_NAME (url request) = Some r.
Proof.
  intros Hok. unfold stored, cache_entry. rewrite Hok. simpl.
  apply storage_open_put_entry.
Qed.

Lemma new_events_stored host request r w :
  CachePut CACHE_NAME (url request) r ∈ new_events w (stored host request r w).
Proof.
  unfold stored.
  destruct (store_fault host CACHE_NAME (url request) r);
    rewrite new_events_app; set_unfold; tauto.
Qed.

(** C1.  On a miss, a response the network yields goes back to the page
    as it came.  The store of that response under the request's key in the
    current generation is requested exactly when the status is 200 and the
    type is not the error type, and, the storage accepting the write, the
    entry is there afterwards exactly in that case.  For any other
    response the storage stays as it was; an opaque response has status 0
    and is among those. *)
Theorem miss_returns_network_response (host : Host) (request : Request)
    (w : World) (r : Response) :
  method request = "GET" →
  storage_match (url request) (storage w) = None →
  network host request = Fulfilled (Some r) →
  (handle_fetch host request w).1 = Responded r
  ∧ (CachePut CACHE_NAME (url request) r
       ∈ new_events w (handle_fetch host request w).2
       ↔ status r = 200 ∧ type r ≠ RError)
  ∧ (store_fault host CACHE_NAME (url request) r = None →
       (is_Some (cache_entry (handle_fetch host request w).2 CACHE_NAME (url request))
          ↔ status r = 200 ∧ type r ≠ RError)
       ∧ (status r = 200 ∧ type r ≠ RError →
            cache_entry (handle_fetch host request w).2 CACHE_NAME (url request)
            = Some r))
  ∧ (¬ (status r = 200 ∧ type r ≠ RError) →
       storage (handle_fetch host request w).2 = storage w)
  ∧ (wf_response r → type r = ROpaque →
       storage (handle_fetch host request w).2 = storage w).
Proof.
  intros Hget Hmiss Hnet.
  destruct (not_cacheable (Some r)) eqn:Hskip.
  - rewrite (handle_fetch_miss_skip host request w Hget Hmiss (Some r) Hnet Hskip).
    apply not_cacheable_true in Hskip. simpl.
    split_and!; [done | | | done | done].
    + unfold after. rewrite new_events_app. split; [|done].
      intros Hin. set_unfold. destruct Hin as [|[|]]; done.
    + intros _.
      assert (cache_entry (after w [CachesMatch (url request); NetFetch request])
                CACHE_NAME (url request) = None) as ->.
      { by apply storage_match_None_cache_entry. }
      split; [split; [by intros [? ?] | done] | done].
  - rewrite (handle_fetch_miss_store host request w Hget Hmiss r Hnet Hskip).
    apply not_cacheable_false in Hskip. simpl.
    split_and!; [done | | | done | ].
    + split; [done | intros _; apply new_events_stored].
    + intros Hok. rewrite (cache_entry_stored_ok host request r w Hok).
      split; [split; [done | by exists r] | done].
    + intros Hwf Hop. destruct Hskip as [Hst _].
      unfold wf_response in Hwf. rewrite Hop in Hwf.
      assert (status r = 0) by (apply Hwf; set_unfold; tauto). lia.
Qed.

Lemma miss_returns_network_response_witness :
  (handle_fetch host_online (get "/js/app.js") world_shell).1 = Responded page_response
  ∧ (CachePut CACHE_NAME "/js/app.js" page_response
       ∈ new_events world_shell (handle_fetch host_online (get "/js/app.js") world_shell).2
       ↔ status page_response = 200 ∧ type page_response ≠ RError)
  ∧ (store_fault host_online CACHE_NAME "/js/app.js" page_response = None →
       (is_Some (cache_entry (handle_fetch host_online (get "/js/app.js") world_shell).2
                   CACHE_NAME "/js/app.js")
          ↔ status page_response = 200 ∧ type page_response ≠ RError)
       ∧ (status page_response = 200 ∧ type page_response ≠ RError →
            cache_entry (handle_fetch host_online (get "/js/app.js") world_shell).2
              CACHE_NAME "/js/app.js"
            = Some page_response))
  ∧ (¬ (status page_response = 200 ∧ type page_response ≠ RError) →
       storage (handle_fetch host_online (get "/js/app.js") world_shell).2
       = storage world_shell)
  ∧ (wf_response page_response → type page_response = ROpaque →
       storage (handle_fetch host_online (get "/js/app.js") world_shell).2
       = storage world_shell).
Proof.
  apply (miss_returns_network_response host_online (get "/js/app.js")
           world_shell page_response); reflexivity.
Defined.

(** C4.  A GET whose key no generation holds, with the network request
    rejected: when some generation holds ["/index.html"], the page gets
    that cached document (the one of the first generation, in creation
    order, that holds it); when no generation holds it, the page gets a
    network error.  Either way the run is the lookup, the request and the
    lookup of the document, and the storage is not touched. *)
Theorem offline_falls_back_to_document (host : Host) (request : Request)
    (w : World) (e : JsError) :
  method request = "GET" →
  (∀ n c, (n, c) ∈ storage w → c !! url request = None) →
  network host request = Rejected e →
  (∀ older n c newer document,
      storage w = (older ++ (n, c) :: newer)%list →
      Forall (λ g, g.2 !! "/index.html" = None) older →
      c !! "/index.html" = Some document →
      (handle_fetch host request w).1 = Responded document)
  ∧ ((∃ n c, (n, c) ∈ storage w ∧ is_Some (c !! "/index.html")) →
      ∃ document n c,
        (n, c) ∈ storage w ∧ c !! "/index.html" = Some document
        ∧ (handle_fetch host request w).1 = Responded document)
  ∧ ((∀ n c, (n, c) ∈ storage w → c !! "/index.html" = None) →
      (handle_fetch host request w).1 = NetworkError)
  ∧ storage (handle_fetch host request w).2 = storage w
  ∧ new_events w (handle_fetch host request w).2
    = [CachesMatch (url request); NetFetch request; CachesMatch "/index.html"].
Proof.
  intros Hget Hnone Hnet.
  assert (storage_match (url request) (storage w) = None) as Hmiss.
  { apply storage_match_None, Forall_forall. intros [n c] Hin. by apply (Hnone n c). }
  rewrite (handle_fetch_offline host request w Hget Hmiss e Hnet). cbn [fst snd].
  split_and!.
  - intros older n c newer document Hst Hold Hc.
    assert (storage_match "/index.html" (storage w) = Some document) as ->; [|done].
    apply storage_match_Some. by exists older, n, c, newer.
  - intros [document Hdoc]%storage_match_is_Some.
    pose proof Hdoc as (older & n & c & newer & Hst & _ & Hc)%storage_match_Some.
    exists document, n, c. rewrite Hdoc.
    split_and!; [rewrite Hst; apply elem_of_app; right; apply list_elem_of_here
                | done | done].
  - intros Hnodoc.
    assert (storage_match "/index.html" (storage w) = None) as ->; [|done].
    apply storage_match_None, Forall_forall. intros [n c] Hin. by apply (Hnodoc n c).
  - done.
  - unfold after. apply new_events_app.
Qed.

(** Offline with the shell cached: the stale generation does not hold
    the document, the current one does, and its document is the answer.
    Offline with nothing cached: a network error. *)
Lemma offline_falls_back_to_document_witness :
  (handle_fetch host_offline (get "/js/app.js") world_stale).1
  = Responded page_response
  ∧ (handle_fetch host_offline (get "/js/app.js") world_empty).1 = NetworkError.
Proof.
  split.
  - assert (∀ n c, (n, c) ∈ storage world_stale →
                   c !! url (get "/js/app.js") = None) as Hmiss.
    { intros n c Hin. unfold world_stale in Hin. cbn [storage] in Hin.
      apply elem_of_cons in Hin as [[= -> ->]|Hin]; [reflexivity |].
      apply elem_of_cons in Hin as [[= -> ->]|Hin]; [reflexivity |].
      by apply elem_of_nil in Hin. }
    apply (proj1 (offline_falls_back_to_document host_offline (get "/js/app.js")
                    world_stale NetworkFailure eq_refl Hmiss eq_refl)
             [("shoresquad-v0", {[ "/events.json" := stale_response ]})]
             CACHE_NAME {[ "/index.html" := page_response ]} [] page_response).
    + reflexivity.
    + by repeat constructor.
    + reflexivity.
  - assert (∀ n c, (n, c) ∈ storage world_empty →
                   c !! url (get "/js/app.js") = None) as Hmiss.
    { intros n c Hin. by apply elem_of_nil in Hin. }
    apply (proj1 (proj2 (proj2 (offline_falls_back_to_document host_offline
                                   (get "/js/app.js") world_empty NetworkFailure
                                   eq_refl Hmiss eq_refl)))).
    intros n c Hin. by apply elem_of_nil in Hin.
Defined.

(** C8.  When the storage refuses the write of step 4, the page has the
    network response all the same: the rejection reaches no handler of the
    worker, the host reports it as unhandled, and nothing is written. *)
Theorem store_failure_swallowed (host : Host) (request : Request)
    (w : World) (r : Response) (e : JsError) :
  method request = "GET" →
  storage_match (url request) (storage w) = None →
  network host request = Fulfilled (Some r) →
  status r = 200 → type r ≠ RError →
  store_fault host CACHE_NAME (url request) r = Some e →
  (handle_fetch host request w).1 = Responded r
  ∧ new_events w (handle_fetch host request w).2
    = [CachesMatch (url request); NetFetch request; CachesOpen CACHE_NAME;
       CachePut CACHE_NAME (url request) r; UnhandledRejection e]
  ∧ storage (handle_fetch host request w).2 = storage_open CACHE_NAME (storage w)
  ∧ (∀ name key,
       cache_entry (handle_fetch host request w).2 name key = cache_entry w name key).
Proof.
  intros Hget Hmiss Hnet Hst Hty Hfault.
  assert (not_cacheable (Some r) = false) as Hc by by apply not_cacheable_false.
  rewrite (handle_fetch_miss_store host request w Hget Hmiss r Hnet Hc). simpl.
  unfold stored. rewrite Hfault. rewrite new_events_app. simpl.
  split_and!; [done | done | done |].
  intros name key. unfold cache_entry. simpl.
  destruct (decide (name = CACHE_NAME)) as [->|Hne].
  - rewrite storage_lookup_open.
    destruct (storage_lookup CACHE_NAME (storage w)); simpl; [done |].
    apply lookup_empty.
  - by rewrite storage_lookup_open_ne.
Qed.

Lemma store_failure_swallowed_witness :
  (handle_fetch host_quota (get "/js/app.js") world_shell).1 = Responded page_response
  ∧ new_events world_shell (handle_fetch host_quota (get "/js/app.js") world_shell).2
    = [CachesMatch "/js/app.js"; NetFetch (get "/js/app.js"); CachesOpen CACHE_NAME;
       CachePut CACHE_NAME "/js/app.js" page_response;
       UnhandledRejection QuotaExceededError]
  ∧ storage (handle_fetch host_quota (get "/js/app.js") world_shell).2
    = storage_open CACHE_NAME (storage world_shell)
  ∧ (∀ name key,
       cache_entry (handle_fetch host_quota (get "/js/app.js") world_shell).2 name key
       = cache_entry world_shell name key).
Proof.
  apply (store_failure_swallowed host_quota (get "/js/app.js") world_shell
           page_response QuotaExceededError); try reflexivity.
  discriminate.
Defined.

(** ** Activate *)

Lemma activate_listener_unfold w :
  activate_listener w =
  let '(lifetime, w1) :=
    Promise_all (map delete_if_stale (storage w).*1) (after w [CachesKeys]) in
  (lifetime, after w1 [ClientsClaim]).
Proof. reflexivity. Qed.

(** Running the callbacks over a list of names: every one settles, the
    stale names are deleted one after the other, and each deletion is
    announced on the console first. *)
Lemma delete_if_stale_all names w :
  ∃ results,
    length results = length names
    ∧ Promise_all (map delete_if_stale names) w
      = (Fulfilled results,
         {| storage := foldl (λ st n, storage_delete n st) (storage w)
                         (filter (λ n, n ≠ CACHE_NAME) names);
            trace := trace w ++
              flat_map (λ n, [ConsoleLog ("Deleting old cache: " ++ n); CachesDelete n])
                (filter (λ n, n ≠ CACHE_NAME) names) |}).
Proof.
  revert w. induction names as [|name names IH]; intros w.
  - exists []. split; [done |]. simpl. unfold mret, Promise_ret.
    destruct w; simpl. by rewrite app_nil_r.
  - simpl. unfold delete_if_stale at 1.
    destruct (String.eqb name CACHE_NAME) eqn:Heq; simpl.
    + apply String.eqb_eq in Heq as ->.
      destruct (IH w) as (results & Hlen & ->).
      exists (None :: results). split; [simpl; lia |].
      rewrite filter_cons_False by (intros Hne; by apply Hne). done.
    + apply String.eqb_neq in Heq.
      unfold mbind, Promise_bind, console_log, emit, caches_delete. simpl.
      match goal with |- context [Promise_all _ ?w1] =>
        destruct (IH w1) as (results & Hlen & ->) end.
      eexists (Some _ :: results). split; [simpl; lia |].
      rewrite filter_cons_True by done. simpl.
      by rewrite <- !app_assoc.
Qed.

Lemma filter_agree {A} (P Q : A → Prop)
    `{!∀ x, Decision (P x), !∀ x, Decision (Q x)} (l : list A) :
  (∀ x, x ∈ l → P x ↔ Q x) → filter P l = filter Q l.
Proof.
  induction l as [|a l IH]; intros Hiff; [done |].
  assert (filter P l = filter Q l) as Htl.
  { apply IH. intros x Hx. apply Hiff. by apply list_elem_of_further. }
  destruct (decide (P a)) as [Ha|Ha].
  - rewrite !filter_cons_True; [by rewrite Htl | | done].
    by apply Hiff; [apply list_elem_of_here |].
  - rewrite !filter_cons_False; [done | | done].
    intros HQ. apply Ha. by apply Hiff; [apply list_elem_of_here |].
Qed.

Lemma foldl_storage_delete names (st : list (string * gmap string Response)) :
  foldl (λ st n, storage_delete n st) st names = filter (λ g, g.1 ∉ names) st.
Proof.
  revert st. induction names as [|name names IH]; intros st; simpl.
  - induction st as [|g st IHst]; [done |].
    rewrite filter_cons_True by apply not_elem_of_nil. by rewrite <- IHst.
  - rewrite IH. unfold storage_delete. rewrite list_filter_filter.
    apply list_filter_iff. intros g. rewrite not_elem_of_cons. tauto.
Qed.

(** Deleting the stale names of a storage leaves its current generation. *)
Lemma storage_without_stale (st : list (string * gmap string Response)) :
  filter (λ g, g.1 ∉ filter (λ n, n ≠ CACHE_NAME) st.*1) st
  = filter (λ g, g.1 = CACHE_NAME) st.
Proof.
  apply filter_agree. intros g Hin. split.
  - intros Hnot. destruct (decide (g.1 = CACHE_NAME)) as [|Hne]; [done |].
    exfalso. apply Hnot. apply list_elem_of_filter. split; [done |].
    apply list_elem_of_fmap. by exists g.
  - intros Heq [Hne _]%list_elem_of_filter. done.
Qed.









Lemma activate_run w :
  ∃ results,
    length results = length (storage w)
    ∧ activate_listener w
      = (Fulfilled results,
         {| storage := filter (λ g, g.1 = CACHE_NAME) (storage w);
            trace := trace w ++ CachesKeys ::
              flat_map (λ n, [ConsoleLog ("Deleting old cache: " ++ n); CachesDelete n])
                (filter (λ n, n ≠ CACHE_NAME) (storage w).*1)
              ++ [ClientsClaim] |}).
Proof.
  rewrite activate_listener_unfold.
  destruct (delete_if_stale_all (storage w).*1 (after w [CachesKeys]))
    as (results & Hlen & ->).
  exists results. split; [by rewrite Hlen, length_fmap |].
  unfold after. simpl.
  rewrite foldl_storage_delete, storage_without_stale.
  by rewrite <- !app_assoc.
Qed.


(** A version bump from [shoresquad-v0]: the old generation is deleted,
    the current one stays. *)
Example activate_after_version_bump :
  activate world_stale
  = (Activated,
     {| storage := [(CACHE_NAME, {[ "/index.html" := page_response ]})];
        trace := [CachesKeys; ConsoleLog "Deleting old cache: shoresquad-v0";
                  CachesDelete "shoresquad-v0"; ClientsClaim] |}).
Proof. reflexivity. Qed.

(** The promise of that activation fulfils with the answer of the one
    deletion, and with [undefined] for the current name. *)
Example activate_after_version_bump_settled :
  (activate_listener world_stale).1 = Fulfilled [Some true; None].
Proof. reflexivity. Qed.

(** Activation again, with nothing stale. *)
Example activate_again :
  activate world_shell = (Activated, after world_shell [CachesKeys; ClientsClaim]).
Proof. reflexivity. Qed.

(** ** Install *)

(** The store of a batch into one generation, read entry by entry. *)
Lemma storage_lookup_put_all name entries st :
  storage_lookup name (storage_put_all name entries st)
  = (λ c, foldl (λ acc e, <[e.1 := e.2]> acc) c entries) <$> storage_lookup name st.
Proof.
  unfold storage_put_all. revert st.
  induction entries as [|[u r] entries IH]; intros st; simpl.
  - by destruct (storage_lookup name st).
  - rewrite IH, storage_lookup_put. by destruct (storage_lookup name st).
Qed.

Lemma foldl_insert_other (entries : list (string * Response))
    (c : gmap string Response) key :
  key ∉ entries.*1 →
  foldl (λ acc e, <[e.1 := e.2]> acc) c entries !! key = c !! key.
Proof.
  revert c. induction entries as [|[u r] entries IH]; intros c Hnot; [done |].
  simpl in *. apply not_elem_of_cons in Hnot as [Hne Hnot].
  rewrite IH by done. by apply lookup_insert_ne.
Qed.

Lemma foldl_insert_entry (entries : list (string * Response))
    (c : gmap string Response) key r :
  NoDup entries.*1 → (key, r) ∈ entries →
  foldl (λ acc e, <[e.1 := e.2]> acc) c entries !! key = Some r.
Proof.
  revert c. induction entries as [|[u r'] entries IH]; intros c Hnd Hin.
  - by apply elem_of_nil in Hin.
  - simpl in *. apply NoDup_cons in Hnd as [Hfresh Hnd].
    apply elem_of_cons in Hin as [[= <- <-]|Hin].
    + rewrite foldl_insert_other by done. apply lookup_insert_eq.
    + by apply IH.
Qed.

(** The responses [addAll] gathered, paired with their URLs. *)
Lemma addAll_entries host urls responses :
  mapM (addAll_fetch host) urls = Some responses →
  (zip urls responses).*1 = urls
  ∧ ∀ u, u ∈ urls → ∃ r, addAll_fetch host u = Some r ∧ (u, r) ∈ zip urls responses.
Proof.
  intros Hall%mapM_Some. split.
  - apply fst_zip. by rewrite (Forall2_length _ _ _ Hall).
  - induction Hall as [|u r urls responses Hu _ IH]; intros u' Hin.
    + by apply elem_of_nil in Hin.
    + apply elem_of_cons in Hin as [->|Hin].
      * exists r. split; [done | apply list_elem_of_here].
      * destruct (IH u' Hin) as (r' & Hr' & Hin').
        exists r'. split; [done | by apply list_elem_of_further].
Qed.

Lemma batch_fault_None host cache entries :
  (∀ u r, store_fault host cache u r = None) → batch_fault host cache entries = None.
Proof.
  intros Hok. induction entries as [|[u r] entries IH]; simpl; [done |].
  by rewrite Hok.
Qed.

(** [caches.open] adds no entry to any generation. *)
Lemma cache_entry_open w st' evs name cache key :
  st' = storage_open cache (storage w) →
  cache_entry {| storage := st'; trace := evs |} name key = cache_entry w name key.
Proof.
  intros ->. unfold cache_entry. simpl.
  destruct (decide (name = cache)) as [->|Hne].
  - rewrite storage_lookup_open.
    destruct (storage_lookup cache (storage w)); simpl; [done |].
    apply lookup_empty.
  - by rewrite storage_lookup_open_ne.
Qed.

Lemma install_listener_fetch_failed host w :
  mapM (addAll_fetch host) ASSETS_TO_CACHE = None →
  install_listener host w
  = (Rejected TypeError,
     {| storage := storage_open CACHE_NAME (storage w);
        trace := trace w ++
          [CachesOpen CACHE_NAME; ConsoleLog "Caching app shell";
           CacheAddAll CACHE_NAME ASSETS_TO_CACHE]
          ++ map (λ u, NetFetch {| method := "GET"; url := u |}) ASSETS_TO_CACHE
          ++ [SkipWaiting] |}).
Proof.
  intros Hfail. unfold install_listener, mbind, Promise_bind, caches_open,
    console_log, emit, cache_addAll.
  cbn [fst snd storage trace]. rewrite Hfail. cbn [fst snd storage trace].
  by rewrite <- !app_assoc.
Qed.

Lemma install_listener_stored host w responses :
  mapM (addAll_fetch host) ASSETS_TO_CACHE = Some responses →
  batch_fault host CACHE_NAME (zip ASSETS_TO_CACHE responses) = None →
  install_listener host w
  = (Fulfilled (),
     {| storage := storage_put_all CACHE_NAME (zip ASSETS_TO_CACHE responses)
                     (storage_open CACHE_NAME (storage w));
        trace := trace w ++
          [CachesOpen CACHE_NAME; ConsoleLog "Caching app shell";
           CacheAddAll CACHE_NAME ASSETS_TO_CACHE]
          ++ map (λ u, NetFetch {| method := "GET"; url := u |}) ASSETS_TO_CACHE
          ++ [SkipWaiting] |}).
Proof.
  intros Hall Hok. unfold install_listener, mbind, Promise_bind, caches_open,
    console_log, emit, cache_addAll, with_storage.
  cbn [fst snd storage trace]. rewrite Hall, Hok. cbn [fst snd storage trace].
  by rewrite <- !app_assoc.
Qed.

Lemma activate_state w : (activate w).1 = Activated.
Proof. unfold activate. by destruct (activate_listener w). Qed.

Lemma ASSETS_TO_CACHE_NoDup : NoDup ASSETS_TO_CACHE.
Proof. apply (bool_decide_unpack _). by vm_compute. Qed.

Lemma addAll_accepts_ok r : addAll_accepts r = true ↔ ok_response r.
Proof.
  unfold addAll_accepts, ok_response.
  rewrite !andb_true_iff, !negb_true_iff, bool_decide_eq_false,
    !Z.leb_le, Z.eqb_neq. tauto.
Qed.

(** What [addAll] makes of the network's answer for one path. *)
Lemma addAll_fetch_answered host u r :
  network host {| method := "GET"; url := u |} = Fulfilled (Some r) →
  ok_response r →
  addAll_fetch host u = Some r.
Proof.
  intros Hnet Hok%addAll_accepts_ok. unfold addAll_fetch. by rewrite Hnet, Hok.
Qed.

Lemma addAll_fetch_failed host u :
  (∀ r, network host {| method := "GET"; url := u |} = Fulfilled (Some r) →
        ¬ ok_response r) →
  addAll_fetch host u = None.
Proof.
  intros Hfail. unfold addAll_fetch.
  destruct (network host {| method := "GET"; url := u |}) as [[r|]|e] eqn:Hnet;
    [|done|done].
  destruct (addAll_accepts r) eqn:Hacc; [|done].
  apply addAll_accepts_ok in Hacc. by destruct (Hfail r).
Qed.

(** C6.  When the network answers the request for every path of the
    manifest with an ok response (and the storage takes the batch), the
    install completes, the current generation holds for every path the
    response the network gave for it, and the version goes on to
    activation.  When the request for any one path fails (it rejects, or
    is not answered with an ok response), the promise given to [waitUntil]
    rejects: the version becomes redundant, activation never runs, and no
    entry of any generation has been added or changed. *)
Theorem install_all_or_nothing (host : Host) (w : World) :
  ((∀ u, u ∈ ASSETS_TO_CACHE →
      ∃ r, network host {| method := "GET"; url := u |} = Fulfilled (Some r)
           ∧ ok_response r) →
   (∀ u r, store_fault host CACHE_NAME u r = None) →
     (install_listener host w).1 = Fulfilled ()
     ∧ (install host w).1 = Installed
     ∧ (register host w).1 = Activated
     ∧ (∀ u r, u ∈ ASSETS_TO_CACHE →
          network host {| method := "GET"; url := u |} = Fulfilled (Some r) →
          cache_entry (install host w).2 CACHE_NAME u = Some r))
  ∧ ((∃ u, u ∈ ASSETS_TO_CACHE
           ∧ ∀ r, network host {| method := "GET"; url := u |} = Fulfilled (Some r) →
                  ¬ ok_response r) →
     (install_listener host w).1 = Rejected TypeError
     ∧ (install host w).1 = Redundant
     ∧ register host w = install host w
     ∧ (∀ name key,
          cache_entry (install host w).2 name key = cache_entry w name key)
     ∧ (∀ e, e ∈ new_events w (register host w).2 →
          e ≠ CachesKeys ∧ e ≠ ClientsClaim ∧ ∀ n k r, e ≠ CachePut n k r)).
Proof.
  split.
  - intros Hanswered Hstore.
    assert (∀ u, u ∈ ASSETS_TO_CACHE → is_Some (addAll_fetch host u)) as Hfetched.
    { intros u Hin. destruct (Hanswered u Hin) as (r & Hnet & Hok).
      exists r. by apply addAll_fetch_answered. }
    destruct (mapM (addAll_fetch host) ASSETS_TO_CACHE) as [responses|] eqn:Hall.
    2: { apply mapM_None, Exists_exists in Hall as (u & Hin & Hu).
         apply Hfetched in Hin. rewrite Hu in Hin. by destruct Hin. }
    pose proof (install_listener_stored host w responses Hall
                  (batch_fault_None host CACHE_NAME _ Hstore)) as Hrun.
    unfold register, install. rewrite Hrun.
    split_and!; [done | done | apply activate_state |].
    intros u r Hin Hnet. cbn [fst snd].
    destruct (Hanswered u Hin) as (r' & Hnet' & Hok).
    assert (r' = r) as -> by congruence.
    destruct (addAll_entries host ASSETS_TO_CACHE responses Hall) as [Hkeys Hentries].
    destruct (Hentries u Hin) as (r' & Hr' & Hzip).
    rewrite (addAll_fetch_answered host u r Hnet Hok) in Hr'. injection Hr' as <-.
    unfold cache_entry. cbn [storage].
    rewrite storage_lookup_put_all, storage_lookup_open.
    cbn [fmap option_fmap option_map mbind option_bind].
    apply foldl_insert_entry; [|done].
    rewrite Hkeys. apply ASSETS_TO_CACHE_NoDup.
  - intros (u & Hin & Hu%addAll_fetch_failed).
    assert (mapM (addAll_fetch host) ASSETS_TO_CACHE = None) as Hfail.
    { apply mapM_None, Exists_exists. by exists u. }
    pose proof (install_listener_fetch_failed host w Hfail) as Hrun.
    unfold register, install. rewrite Hrun. cbn [fst snd].
    split_and!; [done | done | done | |].
    + intros name key. by apply (cache_entry_open w _ _ name CACHE_NAME key).
    + rewrite new_events_app. apply Forall_forall.
      unfold ASSETS_TO_CACHE. cbn [app map].
      repeat (apply Forall_cons; split; [by split_and! |]).
      apply Forall_nil_2.
Qed.

(** Everything reachable: the five paths are stored as the network gave
    them.  The stylesheet answered with 404: the version is discarded. *)
Lemma install_all_or_nothing_witness :
  ((install_listener host_online world_stale).1 = Fulfilled ()
   ∧ (install host_online world_stale).1 = Installed
   ∧ (register host_online world_stale).1 = Activated
   ∧ (∀ u r, u ∈ ASSETS_TO_CACHE →
        network host_online {| method := "GET"; url := u |} = Fulfilled (Some r) →
        cache_entry (install host_online world_stale).2 CACHE_NAME u = Some r))
  ∧ ((install_listener host_broken_deploy world_stale).1 = Rejected TypeError
     ∧ (install host_broken_deploy world_stale).1 = Redundant
     ∧ register host_broken_deploy world_stale = install host_broken_deploy world_stale
     ∧ (∀ name key,
          cache_entry (install host_broken_deploy world_stale).2 name key
          = cache_entry world_stale name key)
     ∧ (∀ e, e ∈ new_events world_stale (register host_broken_deploy world_stale).2 →
          e ≠ CachesKeys ∧ e ≠ ClientsClaim ∧ ∀ n k r, e ≠ CachePut n k r)).
Proof.
  split.
  - apply (proj1 (install_all_or_nothing host_online world_stale)).
    + intros u _. exists page_response. split; [reflexivity |].
      unfold ok_response. cbn. split_and!; [lia | lia | lia | discriminate].
    + reflexivity.
  - apply (proj2 (install_all_or_nothing host_broken_deploy world_stale)).
    exists "/css/styles.css". split.
    + apply list_elem_of_further, list_elem_of_further, list_elem_of_here.
    + intros r [= <-] [[_ Hstatus] _]. cbn in Hstatus. lia.
Defined.

(** The first install on an empty storage, everything reachable: the
    current generation holds the five paths of the manifest. *)
Example install_fresh :
  (install host_online world_empty).1 = Installed
  ∧ storage (install host_online world_empty).2
    = [(CACHE_NAME,
        {[ "/" := page_response; "/index.html" := page_response;
           "/css/styles.css" := page_response; "/js/app.js" := page_response;
           "/manifest.json" := page_response ]})].
Proof. split; reflexivity. Qed.

(** The stylesheet answers 404: the version is discarded and the stale
    generation is still there, activation not having run. *)
Example install_broken_deploy :
  (register host_broken_deploy world_stale).1 = Redundant
  ∧ storage (register host_broken_deploy world_stale).2 = storage world_stale.
Proof. split; reflexivity. Qed.

(** ** Handle Push *)

(** The payload parses: the notification shows [data.body || default]. *)
Lemma push_listener_parsed d data data_body w :
  json d = Normal data →
  get_body data = Normal data_body →
  push_listener (Some d) w
  = (Normal (Fulfilled ()),
     after w [ShowNotification "ShoreSquad"
                (options_with_body (or_else data_body (JString DEFAULT_BODY)))]).
Proof. intros Hd Hb. unfold push_listener. by rewrite Hd, Hb. Qed.

(** Any falsy [body] gives way to the default text. *)
Lemma falsy_body_gets_default d fields v w :
  json d = Normal (JObject fields) →
  own_property "body" fields = Some v →
  ToBoolean v = false →
  push_listener (Some d) w
  = (Normal (Fulfilled ()),
     after w [ShowNotification "ShoreSquad" (options_with_body (JString DEFAULT_BODY))]).
Proof.
  intros Hd Hv Hfalsy.
  rewrite (push_listener_parsed d (JObject fields) v w Hd).
  - unfold or_else. by rewrite Hfalsy.
  - unfold get_body. by rewrite Hv.
Qed.

(** C7, as the code has it.  Without a payload the listener takes the
    empty object and shows the notification with the default text.  With
    a payload whose [json()] throws, the listener throws the same error at
    line 80: it never reaches [showNotification], and the world is as it
    was. *)
Theorem push_default_or_throw (w : World) :
  push_listener None w
  = (Normal (Fulfilled ()),
     after w [ShowNotification "ShoreSquad" (options_with_body (JString DEFAULT_BODY))])
  ∧ (∀ d e, json d = Throw e → push_listener (Some d) w = (Throw e, w)).
Proof.
  split; [reflexivity |].
  intros d e Hd. unfold push_listener. by rewrite Hd.
Qed.

(** C7, as the claim has it, fails: for a payload that is not JSON no
    empty object is substituted and no notification is shown; the listener
    ends with the [SyntaxError]. *)
Lemma garbled_payload_throws :
  json garbled_payload = Throw SyntaxError
  ∧ push_listener (Some garbled_payload) world_empty = (Throw SyntaxError, world_empty)
  ∧ push_listener (Some garbled_payload) world_empty
    ≠ (Normal (Fulfilled ()),
       after world_empty
         [ShowNotification "ShoreSquad" (options_with_body (JString DEFAULT_BODY))]).
Proof. split_and!; [reflexivity | reflexivity | discriminate]. Qed.

(** C10.  A payload that parses to an object whose [body] is the empty
    string gets the default text, the empty string being falsy. *)
Theorem empty_body_gets_default (d : PushMessageData)
    (fields : list (string * JsValue)) (w : World) :
  json d = Normal (JObject fields) →
  own_property "body" fields = Some (JString "") →
  push_listener (Some d) w
  = (Normal (Fulfilled ()),
     after w [ShowNotification "ShoreSquad" (options_with_body (JString DEFAULT_BODY))]).
Proof.
  intros Hd Hbody. by apply (falsy_body_gets_default d fields (JString "") w).
Qed.

Lemma empty_body_gets_default_witness :
  push_listener (Some empty_body_payload) world_empty
  = (Normal (Fulfilled ()),
     after world_empty
       [ShowNotification "ShoreSquad" (options_with_body (JString DEFAULT_BODY))]).
Proof.
  apply (empty_body_gets_default empty_body_payload [("body", JString "")] world_empty);
    reflexivity.
Defined.

(** The scenario of the specification: a body that is there is shown. *)
Example push_reminder :
  push_listener (Some reminder_payload) world_empty
  = (Normal (Fulfilled ()),
     after world_empty
       [ShowNotification "ShoreSquad"
          (options_with_body (JString "Cleanup starts in 1 hour!"))]).
Proof. reflexivity. Qed.

(** The other falsy values a JSON document can put in [body]. *)
Example falsy_values :
  Forall (λ v, ToBoolean v = false)
    [JUndefined; JNull; JBool false; JString "";
     JNumber (Finite false 0 0); JNumber (Finite true 0 0)].
Proof. repeat constructor. Qed.

(** ** Handle Fetch: what a run leaves behind *)

(** The five ways a run of Handle Fetch can go. *)
Lemma handle_fetch_cases host request w :
  (method request ≠ "GET"
   ∧ handle_fetch host request w = (ToNetwork request, w))
  ∨ (method request = "GET"
     ∧ ∃ cached, storage_match (url request) (storage w) = Some cached
        ∧ handle_fetch host request w
          = (Responded cached, after w [CachesMatch (url request)]))
  ∨ (method request = "GET"
     ∧ storage_match (url request) (storage w) = None
     ∧ ∃ response, network host request = Fulfilled response
        ∧ not_cacheable response = true
        ∧ handle_fetch host request w
          = (match response with Some r => Responded r | None => NetworkError end,
             after w [CachesMatch (url request); NetFetch request]))
  ∨ (method request = "GET"
     ∧ storage_match (url request) (storage w) = None
     ∧ ∃ r, network host request = Fulfilled (Some r)
        ∧ not_cacheable (Some r) = false
        ∧ handle_fetch host request w = (Responded r, stored host request r w))
  ∨ (method request = "GET"
     ∧ storage_match (url request) (storage w) = None
     ∧ ∃ e, network host request = Rejected e
        ∧ handle_fetch host request w
          = (match storage_match "/index.html" (storage w) with
             | Some document => Responded document
             | None => NetworkError
             end,
             after w [CachesMatch (url request); NetFetch request;
                      CachesMatch "/index.html"])).
Proof.
  destruct (decide (method request = "GET")) as [Hget|Hne].
  2: { left. split; [done | by apply handle_fetch_not_get]. }
  right.
  destruct (storage_match (url request) (storage w)) as [cached|] eqn:Hm.
  { left. split; [done |]. exists cached. split; [done | by apply handle_fetch_hit]. }
  right.
  destruct (network host request) as [response|e] eqn:Hnet.
  - destruct (not_cacheable response) eqn:Hskip.
    + left. split_and!; [done | done |]. exists response.
      split_and!; [done | done | by apply handle_fetch_miss_skip].
    + right. left. destruct response as [r|]; [|done].
      split_and!; [done | done |]. exists r.
      split_and!; [done | done | by apply handle_fetch_miss_store].
  - right. right. split_and!; [done | done |]. exists e.
    split; [done | by apply (handle_fetch_offline host request w Hget Hm e)].
Qed.

Lemma cache_entry_after w evs name key :
  cache_entry (after w evs) name key = cache_entry w name key.
Proof. reflexivity. Qed.

(** The store of step 4 touches one entry and no other. *)
Lemma cache_entry_stored_other host request r w name key :
  (name, key) ≠ (CACHE_NAME, url request) →
  cache_entry (stored host request r w) name key = cache_entry w name key.
Proof.
  intros Hne. unfold stored.
  destruct (store_fault host CACHE_NAME (url request) r).
  { by apply (cache_entry_open w _ _ name CACHE_NAME key). }
  unfold cache_entry. cbn [storage].
  destruct (decide (name = CACHE_NAME)) as [->|Hname].
  - rewrite storage_lookup_put, storage_lookup_open.
    cbn [fmap option_fmap option_map mbind option_bind].
    rewrite lookup_insert_ne by congruence.
    destruct (storage_lookup CACHE_NAME (storage w)); [done | apply lookup_empty].
  - by rewrite storage_lookup_put_ne, storage_lookup_open_ne.
Qed.

Lemma storage_match_put name key r st c :
  storage_match key st = None →
  storage_lookup name st = Some c →
  storage_match key (storage_put name key r st) = Some r.
Proof.
  induction st as [|[n c0] st IH]; [done |].
  rewrite storage_lookup_cons. cbn [storage_match storage_put].
  destruct (c0 !! key) eqn:Hc0; [done |]. intros Hmiss.
  destruct (String.eqb n name) eqn:Hn.
  - intros _. cbn [storage_match]. by rewrite lookup_insert_eq.
  - intros Hc. cbn [storage_match]. rewrite Hc0. by apply IH.
Qed.

Lemma storage_match_open name key st :
  storage_match key (storage_open name st) = storage_match key st.
Proof.
  unfold storage_open. destruct (storage_lookup name st); [done |].
  induction st as [|[n c] st IH]; [done |].
  cbn [storage_match app]. by destruct (c !! key).
Qed.

(** Once stored, the response is what [caches.match] finds. *)
Lemma storage_match_stored host request r w :
  storage_match (url request) (storage w) = None →
  store_fault host CACHE_NAME (url request) r = None →
  storage_match (url request) (storage (stored host request r w)) = Some r.
Proof.
  intros Hmiss Hok. unfold stored. rewrite Hok. cbn [storage].
  apply (storage_match_put _ _ _ _ (default ∅ (storage_lookup CACHE_NAME (storage w)))).
  - by rewrite storage_match_open.
  - apply storage_lookup_open.
Qed.

(** X1.  Handle Fetch never replaces or removes what is cached: whatever
    the request and whatever the network does, every entry of every
    generation other than the entry of the request's key in the current
    generation is as it was, and that one entry, when it existed, is
    kept too.  The cache is never revalidated. *)
Theorem handle_fetch_keeps_entries (host : Host) (request : Request) (w : World) :
  (∀ name key,
      (name, key) ≠ (CACHE_NAME, url request) →
      cache_entry (handle_fetch host request w).2 name key = cache_entry w name key)
  ∧ (∀ name key r,
      cache_entry w name key = Some r →
      cache_entry (handle_fetch host request w).2 name key = Some r).
Proof.
  assert (∀ name key,
      (name, key) ≠ (CACHE_NAME, url request)
      ∨ storage_match (url request) (storage w) ≠ None ∨ method request ≠ "GET" →
      cache_entry (handle_fetch host request w).2 name key = cache_entry w name key)
    as Hsame.
  { intros name key Hcond.
    destruct (handle_fetch_cases host request w)
      as [[_ ->]|[(_ & c & _ & ->)|[(_ & _ & resp & _ & _ & ->)
         |[(Hget & Hmiss & r & _ & _ & ->)|(_ & _ & e & _ & ->)]]]]; try done.
    destruct Hcond as [Hne|[Hhit|Hm]]; [|done|done].
    by apply cache_entry_stored_other. }
  split.
  - intros name key Hne. apply Hsame. by left.
  - intros name key r Hentry. rewrite Hsame; [done |].
    destruct (decide ((name, key) = (CACHE_NAME, url request))) as [[= -> ->]|Hne];
      [|by left].
    right. left. intros Hmiss.
    rewrite (storage_match_None_cache_entry _ _ CACHE_NAME Hmiss) in Hentry. done.
Qed.

(** X2.  What step 4 stored answers the next request for the same key:
    after a miss that the network answered with a cacheable response and
    the storage took, the same request is served that very response from
    the cache, whatever the network has become. *)
Theorem second_request_served_from_cache (host later : Host) (request : Request)
    (w : World) (r : Response) :
  method request = "GET" →
  storage_match (url request) (storage w) = None →
  network host request = Fulfilled (Some r) →
  status r = 200 → type r ≠ RError →
  store_fault host CACHE_NAME (url request) r = None →
  handle_fetch later request (handle_fetch host request w).2
  = (Responded r,
     after (handle_fetch host request w).2 [CachesMatch (url request)]).
Proof.
  intros Hget Hmiss Hnet Hst Hty Hok.
  assert (not_cacheable (Some r) = false) as Hc by by apply not_cacheable_false.
  rewrite (handle_fetch_miss_store host request w Hget Hmiss r Hnet Hc). cbn [snd].
  apply handle_fetch_hit; [done |]. by apply storage_match_stored.
Qed.

Lemma second_request_served_from_cache_witness :
  handle_fetch host_offline (get "/js/app.js")
    (handle_fetch host_online (get "/js/app.js") world_shell).2
  = (Responded page_response,
     after (handle_fetch host_online (get "/js/app.js") world_shell).2
       [CachesMatch "/js/app.js"]).
Proof.
  apply (second_request_served_from_cache host_online host_offline
           (get "/js/app.js") world_shell page_response); try reflexivity.
  discriminate.
Defined.

(** X3.  The worker goes to the network for the intercepted request only,
    and only after the lookup missed: any network request in a run of
    Handle Fetch is the request itself, made for a GET whose key no
    generation held, right after the lookup. *)
Theorem network_only_after_miss (host : Host) (request : Request) (w : World)
    (q : Request) :
  NetFetch q ∈ new_events w (handle_fetch host request w).2 →
  q = request
  ∧ method request = "GET"
  ∧ storage_match (url request) (storage w) = None
  ∧ ∃ rest, new_events w (handle_fetch host request w).2
            = CachesMatch (url request) :: NetFetch request :: rest
            ∧ ∀ q', NetFetch q' ∉ rest.
Proof.
  destruct (handle_fetch_cases host request w)
    as [[_ ->]|[(_ & c & _ & ->)|[(Hget & Hmiss & resp & _ & _ & ->)
       |[(Hget & Hmiss & r & _ & _ & ->)|(Hget & Hmiss & e & _ & ->)]]]];
    cbn [snd].
  - unfold new_events. rewrite drop_all. by intros ?%elem_of_nil.
  - unfold after. rewrite new_events_app.
    by intros ?%list_elem_of_singleton.
  - unfold after. rewrite new_events_app. intros Hin.
    assert (q = request) as ->.
    { apply elem_of_cons in Hin as [|Hin]; [done |].
      apply list_elem_of_singleton in Hin. congruence. }
    split_and!; [done | done | done |]. exists []. split; [done |].
    intros q'. apply not_elem_of_nil.
  - unfold stored.
    destruct (store_fault host CACHE_NAME (url request) r);
      rewrite new_events_app; intros Hin;
      (assert (q = request) as ->;
       [ repeat (apply elem_of_cons in Hin as [|Hin]; [congruence |]);
         by apply elem_of_nil in Hin
       | split_and!; [done | done | done |]; eexists; split; [reflexivity |];
         intros q' Hq';
         repeat (apply elem_of_cons in Hq' as [|Hq']; [done |]);
         by apply elem_of_nil in Hq' ]).
  - unfold after. rewrite new_events_app. intros Hin.
    assert (q = request) as ->.
    { repeat (apply elem_of_cons in Hin as [|Hin]; [congruence |]).
      by apply elem_of_nil in Hin. }
    split_and!; [done | done | done |]. eexists. split; [reflexivity |].
    intros q' Hq'. apply list_elem_of_singleton in Hq'. done.
Qed.

Lemma network_only_after_miss_witness :
  get "/js/app.js" = get "/js/app.js"
  ∧ method (get "/js/app.js") = "GET"
  ∧ storage_match (url (get "/js/app.js")) (storage world_shell) = None
  ∧ ∃ rest, new_events world_shell
              (handle_fetch host_online (get "/js/app.js") world_shell).2
            = CachesMatch (url (get "/js/app.js")) :: NetFetch (get "/js/app.js") :: rest
            ∧ ∀ q', NetFetch q' ∉ rest.
Proof.
  apply (network_only_after_miss host_online (get "/js/app.js") world_shell
           (get "/js/app.js")).
  vm_compute. apply list_elem_of_further, list_elem_of_here.
Defined.

(** ** Install and activation: what they leave behind *)

Lemma install_succeeds host w :
  (∀ u, u ∈ ASSETS_TO_CACHE → is_Some (addAll_fetch host u)) →
  (∀ u r, store_fault host CACHE_NAME u r = None) →
  ∃ responses,
    mapM (addAll_fetch host) ASSETS_TO_CACHE = Some responses
    ∧ install host w = (Installed, installed responses w).
Proof.
  intros Hfetched Hstore.
  destruct (mapM (addAll_fetch host) ASSETS_TO_CACHE) as [responses|] eqn:Hall.
  2: { apply mapM_None, Exists_exists in Hall as (u & Hin & Hu).
       apply Hfetched in Hin. rewrite Hu in Hin. by destruct Hin. }
  exists responses. split; [done |]. unfold install.
  by rewrite (install_listener_stored host w responses Hall
                (batch_fault_None host CACHE_NAME _ Hstore)).
Qed.

Lemma storage_lookup_put_all_ne name other entries st :
  other ≠ name →
  storage_lookup other (storage_put_all name entries st) = storage_lookup other st.
Proof.
  intros Hne. unfold storage_put_all. revert st.
  induction entries as [|[u r] entries IH]; intros st; [done |].
  cbn [foldl]. rewrite IH. by apply storage_lookup_put_ne.
Qed.

(** What the install wrote under a path of the manifest. *)
Lemma installed_entry host responses w u :
  mapM (addAll_fetch host) ASSETS_TO_CACHE = Some responses →
  u ∈ ASSETS_TO_CACHE →
  ∃ c, storage_lookup CACHE_NAME (storage (installed responses w)) = Some c
       ∧ c !! u = addAll_fetch host u
       ∧ is_Some (addAll_fetch host u).
Proof.
  intros Hall Hin.
  destruct (addAll_entries host ASSETS_TO_CACHE responses Hall) as [Hkeys Hentries].
  destruct (Hentries u Hin) as (r & Hr & Hzip).
  unfold installed. cbn [storage].
  rewrite storage_lookup_put_all, storage_lookup_open.
  cbn [fmap option_fmap option_map].
  eexists. split; [reflexivity |]. rewrite Hr. split; [|by exists r].
  apply foldl_insert_entry; [|done]. rewrite Hkeys. apply ASSETS_TO_CACHE_NoDup.
Qed.

(** What the install did not write. *)
Lemma installed_other responses w name key :
  name ≠ CACHE_NAME ∨ key ∉ ASSETS_TO_CACHE →
  cache_entry (installed responses w) name key = cache_entry w name key.
Proof.
  intros Hcond. unfold cache_entry, installed. cbn [storage].
  destruct (decide (name = CACHE_NAME)) as [->|Hname].
  - destruct Hcond as [|Hkey]; [done |].
    rewrite storage_lookup_put_all, storage_lookup_open.
    cbn [fmap option_fmap option_map mbind option_bind].
    rewrite foldl_insert_other.
    + destruct (storage_lookup CACHE_NAME (storage w)); [done | apply lookup_empty].
    + intros ((k & r) & -> & Hin)%list_elem_of_fmap.
      apply Hkey. by apply elem_of_zip_l in Hin.
  - by rewrite storage_lookup_put_all_ne, storage_lookup_open_ne.
Qed.

(** Among the generations that activation keeps, the first one answers. *)
Lemma storage_match_filter_current (st : list (string * gmap string Response)) c key r :
  storage_lookup CACHE_NAME st = Some c →
  c !! key = Some r →
  storage_match key (filter (λ g, g.1 = CACHE_NAME) st) = Some r.
Proof.
  intros Hc Hr. induction st as [|[n c0] st IH]; [done |].
  rewrite storage_lookup_cons in Hc.
  destruct (String.eqb n CACHE_NAME) eqn:Hn.
  - apply String.eqb_eq in Hn as ->. injection Hc as ->.
    rewrite filter_cons_True by done. cbn [storage_match]. by rewrite Hr.
  - apply String.eqb_neq in Hn. rewrite filter_cons_False by done. by apply IH.
Qed.

Lemma activate_storage w :
  storage (activate w).2 = filter (λ g, g.1 = CACHE_NAME) (storage w).
Proof.
  unfold activate. destruct (activate_run w) as (results & _ & ->). done.
Qed.

Lemma activate_new_events w :
  new_events w (activate w).2
  = CachesKeys ::
      flat_map (λ n, [ConsoleLog ("Deleting old cache: " ++ n); CachesDelete n])
        (filter (λ n, n ≠ CACHE_NAME) (storage w).*1)
      ++ [ClientsClaim].
Proof.
  unfold activate. destruct (activate_run w) as (results & _ & ->). cbn [snd].
  apply new_events_app.
Qed.

Lemma register_after_install host w responses :
  install host w = (Installed, installed responses w) →
  register host w = activate (installed responses w).
Proof. intros Hi. unfold register. by rewrite Hi. Qed.

(** After a complete registration, a path of the manifest is found in
    the cache, as the install fetched it. *)
Lemma registered_asset host w u :
  (∀ u, u ∈ ASSETS_TO_CACHE → is_Some (addAll_fetch host u)) →
  (∀ u r, store_fault host CACHE_NAME u r = None) →
  u ∈ ASSETS_TO_CACHE →
  ∃ r, addAll_fetch host u = Some r
       ∧ storage_match u (storage (register host w).2) = Some r.
Proof.
  intros Hfetched Hstore Hin.
  destruct (install_succeeds host w Hfetched Hstore) as (responses & Hall & Hi).
  rewrite (register_after_install host w responses Hi), activate_storage.
  destruct (installed_entry host responses w u Hall Hin) as (c & Hc & Hu & [r Hr]).
  exists r. split; [done |].
  apply (storage_match_filter_current _ c); [done | congruence].
Qed.

(** X4.  The app shell works offline: once a version has installed and
    activated, a GET for any path of the manifest is answered from the
    cache with the response the install fetched for it, whatever the
    network has become, and no request goes to the network. *)
Theorem installed_shell_served_from_cache (host later : Host) (w : World)
    (u : string) :
  (∀ u, u ∈ ASSETS_TO_CACHE → is_Some (addAll_fetch host u)) →
  (∀ u r, store_fault host CACHE_NAME u r = None) →
  u ∈ ASSETS_TO_CACHE →
  ∃ r, addAll_fetch host u = Some r
       ∧ handle_fetch later {| method := "GET"; url := u |} (register host w).2
         = (Responded r, after (register host w).2 [CachesMatch u]).
Proof.
  intros Hfetched Hstore Hin.
  destruct (registered_asset host w u Hfetched Hstore Hin) as (r & Hr & Hm).
  exists r. split; [done |].
  by apply (handle_fetch_hit later {| method := "GET"; url := u |}).
Qed.

Lemma installed_shell_served_from_cache_witness :
  ∃ r, addAll_fetch host_online "/css/styles.css" = Some r
       ∧ handle_fetch host_offline {| method := "GET"; url := "/css/styles.css" |}
           (register host_online world_stale).2
         = (Responded r,
            after (register host_online world_stale).2
              [CachesMatch "/css/styles.css"]).
Proof.
  apply (installed_shell_served_from_cache host_online host_offline world_stale
           "/css/styles.css").
  - intros u _. by exists page_response.
  - reflexivity.
  - apply list_elem_of_further, list_elem_of_further, list_elem_of_here.
Defined.

(** X5.  Offline, after a complete registration, a GET for a URL that is
    not cached gets the main document the install fetched: the fallback
    of line 72 finds ["/index.html"] of the manifest. *)
Theorem offline_navigation_gets_installed_document (host later : Host)
    (w : World) (request : Request) (e : JsError) :
  (∀ u, u ∈ ASSETS_TO_CACHE → is_Some (addAll_fetch host u)) →
  (∀ u r, store_fault host CACHE_NAME u r = None) →
  method request = "GET" →
  storage_match (url request) (storage (register host w).2) = None →
  network later request = Rejected e →
  ∃ document,
    addAll_fetch host "/index.html" = Some document
    ∧ (handle_fetch later request (register host w).2).1 = Responded document.
Proof.
  intros Hfetched Hstore Hget Hmiss Hnet.
  assert ("/index.html" ∈ ASSETS_TO_CACHE) as Hin
    by apply list_elem_of_further, list_elem_of_here.
  destruct (registered_asset host w "/index.html" Hfetched Hstore Hin)
    as (document & Hdoc & Hm).
  exists document. split; [done |].
  rewrite (handle_fetch_offline later request _ Hget Hmiss e Hnet). cbn [fst].
  by rewrite Hm.
Qed.

Lemma offline_navigation_gets_installed_document_witness :
  ∃ document,
    addAll_fetch host_online "/index.html" = Some document
    ∧ (handle_fetch host_offline (get "/events/42")
         (register host_online world_stale).2).1 = Responded document.
Proof.
  apply (offline_navigation_gets_installed_document host_online host_offline
           world_stale (get "/events/42") NetworkFailure).
  - intros u _. by exists page_response.
  - reflexivity.
  - reflexivity.
  - reflexivity.
  - reflexivity.
Defined.

Lemma batch_fault_Some host cache entries u r e :
  (u, r) ∈ entries →
  store_fault host cache u r = Some e →
  is_Some (batch_fault host cache entries).
Proof.
  intros Hin Hfault. induction entries as [|[u0 r0] entries IH].
  - by apply elem_of_nil in Hin.
  - cbn [batch_fault]. destruct (store_fault host cache u0 r0) eqn:H0; [by eexists |].
    apply elem_of_cons in Hin as [[= -> ->]|Hin]; [congruence | by apply IH].
Qed.

Lemma install_listener_batch_refused host w responses e :
  mapM (addAll_fetch host) ASSETS_TO_CACHE = Some responses →
  batch_fault host CACHE_NAME (zip ASSETS_TO_CACHE responses) = Some e →
  install_listener host w
  = (Rejected e,
     {| storage := storage_open CACHE_NAME (storage w);
        trace := trace w ++
          [CachesOpen CACHE_NAME; ConsoleLog "Caching app shell";
           CacheAddAll CACHE_NAME ASSETS_TO_CACHE]
          ++ map (λ u, NetFetch {| method := "GET"; url := u |}) ASSETS_TO_CACHE
          ++ [SkipWaiting] |}).
Proof.
  intros Hall Hfault. unfold install_listener, mbind, Promise_bind, caches_open,
    console_log, emit, cache_addAll.
  cbn [fst snd storage trace]. rewrite Hall, Hfault. cbn [fst snd storage trace].
  by rewrite <- !app_assoc.
Qed.

(** X6.  The batch of the install is all-or-nothing on the storage side
    as well: when every path was fetched but the storage refuses the
    write of one of them, the install fails, the version is redundant and
    never activated, and none of the fetched responses has been stored,
    the ones the storage would have taken included. *)
Theorem install_refused_by_storage (host : Host) (w : World)
    (u : string) (r : Response) (e : JsError) :
  (∀ u, u ∈ ASSETS_TO_CACHE → is_Some (addAll_fetch host u)) →
  u ∈ ASSETS_TO_CACHE →
  addAll_fetch host u = Some r →
  store_fault host CACHE_NAME u r = Some e →
  (∃ e', (install_listener host w).1 = Rejected e')
  ∧ (register host w).1 = Redundant
  ∧ ∀ name key,
      cache_entry (register host w).2 name key = cache_entry w name key.
Proof.
  intros Hfetched Hin Hr Hfault.
  destruct (mapM (addAll_fetch host) ASSETS_TO_CACHE) as [responses|] eqn:Hall.
  2: { apply mapM_None, Exists_exists in Hall as (u' & Hin' & Hu).
       apply Hfetched in Hin'. rewrite Hu in Hin'. by destruct Hin'. }
  destruct (addAll_entries host ASSETS_TO_CACHE responses Hall) as [_ Hentries].
  destruct (Hentries u Hin) as (r' & Hr' & Hzip).
  assert (r' = r) as -> by congruence.
  destruct (batch_fault_Some host CACHE_NAME _ u r e Hzip Hfault) as [e' He'].
  pose proof (install_listener_batch_refused host w responses e' Hall He') as Hrun.
  unfold register, install. rewrite Hrun. cbn [fst snd].
  split_and!; [by exists e' | done |].
  intros name key. by apply (cache_entry_open w _ _ name CACHE_NAME key).
Qed.

Lemma install_refused_by_storage_witness :
  (∃ e', (install_listener host_no_room_for_css world_visited).1 = Rejected e')
  ∧ (register host_no_room_for_css world_visited).1 = Redundant
  ∧ ∀ name key,
      cache_entry (register host_no_room_for_css world_visited).2 name key
      = cache_entry world_visited name key.
Proof.
  apply (install_refused_by_storage host_no_room_for_css world_visited
           "/css/styles.css" page_response QuotaExceededError).
  - intros u _. by exists page_response.
  - apply list_elem_of_further, list_elem_of_further, list_elem_of_here.
  - reflexivity.
  - reflexivity.
Defined.

(** X7.  A successful install writes the paths of the manifest into the
    current generation and nothing else: the entries of the other
    generations, and the entries of the current generation under keys
    outside the manifest, are as they were. *)
Theorem install_keeps_other_entries (host : Host) (w : World)
    (name key : string) :
  (∀ u, u ∈ ASSETS_TO_CACHE → is_Some (addAll_fetch host u)) →
  (∀ u r, store_fault host CACHE_NAME u r = None) →
  name ≠ CACHE_NAME ∨ key ∉ ASSETS_TO_CACHE →
  cache_entry (install host w).2 name key = cache_entry w name key.
Proof.
  intros Hfetched Hstore Hcond.
  destruct (install_succeeds host w Hfetched Hstore) as (responses & _ & ->).
  by apply installed_other.
Qed.

Lemma install_keeps_other_entries_witness :
  cache_entry (install host_online world_visited).2 CACHE_NAME "/about.html"
  = cache_entry world_visited CACHE_NAME "/about.html".
Proof.
  apply (install_keeps_other_entries host_online world_visited CACHE_NAME "/about.html").
  - intros u _. by exists page_response.
  - reflexivity.
  - right. apply (bool_decide_unpack _). by vm_compute.
Defined.

(** X8.  Installing into a current generation that holds nothing (it does
    not exist yet, or is empty) leaves it with exactly the paths of the
    manifest as keys, whatever the responses were. *)
Theorem fresh_install_holds_exactly_manifest (host : Host) (w : World) (key : string) :
  (∀ u, u ∈ ASSETS_TO_CACHE → is_Some (addAll_fetch host u)) →
  (∀ u r, store_fault host CACHE_NAME u r = None) →
  (∀ k, cache_entry w CACHE_NAME k = None) →
  is_Some (cache_entry (install host w).2 CACHE_NAME key) ↔ key ∈ ASSETS_TO_CACHE.
Proof.
  intros Hfetched Hstore Hempty.
  destruct (install_succeeds host w Hfetched Hstore) as (responses & Hall & ->).
  cbn [snd]. split.
  - intros Hsome. destruct (decide (key ∈ ASSETS_TO_CACHE)) as [|Hnot]; [done |].
    rewrite installed_other, Hempty in Hsome by by right. by destruct Hsome.
  - intros Hin.
    destruct (installed_entry host responses w key Hall Hin) as (c & Hc & Hu & Hr).
    unfold cache_entry. rewrite Hc. cbn [mbind option_bind]. by rewrite Hu.
Qed.

Lemma fresh_install_holds_exactly_manifest_witness :
  is_Some (cache_entry (install host_online world_empty).2 CACHE_NAME "/favicon.ico")
  ↔ "/favicon.ico" ∈ ASSETS_TO_CACHE.
Proof.
  apply (fresh_install_holds_exactly_manifest host_online world_empty "/favicon.ico").
  - intros u _. by exists page_response.
  - reflexivity.
  - reflexivity.
Defined.

(** X9.  Activation is idempotent: a second activation deletes nothing and
    leaves the storage of the first. *)
Theorem activate_twice (w : World) :
  storage (activate (activate w).2).2 = storage (activate w).2
  ∧ deleted (new_events (activate w).2 (activate (activate w).2).2) = [].
Proof.
  assert (∀ v, storage v = filter (λ g, g.1 = CACHE_NAME) (storage w) →
            filter (λ n, n ≠ CACHE_NAME) (storage v).*1 = []) as Hnostale.
  { intros v ->. generalize (storage w). intros st.
    induction st as [|[n c] st IH]; [done |].
    destruct (decide (n = CACHE_NAME)) as [->|Hne].
    - rewrite filter_cons_True by done. cbn [fmap list_fmap fst].
      rewrite filter_cons_False; [exact IH | by intros Hne].
    - by rewrite filter_cons_False by done. }
  pose proof (activate_storage w) as Hst.
  split.
  - rewrite activate_storage, Hst. apply list_filter_filter_l. tauto.
  - by rewrite activate_new_events, (Hnostale _ Hst).
Qed.

(** ** Generation names *)

(** With distinct names, what activation keeps is the current generation
    and nothing else. *)
Lemma filter_current_NoDup (st : list (string * gmap string Response)) :
  NoDup st.*1 →
  filter (λ g, g.1 = CACHE_NAME) st
  = match storage_lookup CACHE_NAME st with
    | Some c => [(CACHE_NAME, c)]
    | None => []
    end.
Proof.
  induction st as [|[n c] st IH]; [done |].
  cbn [fmap list_fmap fst]. intros [Hfresh Hnd]%NoDup_cons.
  rewrite storage_lookup_cons.
  destruct (String.eqb n CACHE_NAME) eqn:Hn.
  - apply String.eqb_eq in Hn as ->. rewrite filter_cons_True by done.
    rewrite IH by done.
    by rewrite (proj2 (storage_lookup_None CACHE_NAME st) Hfresh).
  - apply String.eqb_neq in Hn. rewrite filter_cons_False by done. by apply IH.
Qed.

(** X10.  After activation the lookup of Handle Fetch is a lookup in the
    current generation: with the names of the generations distinct, as
    Cache Storage keeps them, [caches.match] on the activated storage
    finds what the current generation held under the key before, and
    nothing when it held nothing. *)
Theorem lookup_after_activation (w : World) (key : string) :
  NoDup (storage w).*1 →
  storage_match key (storage (activate w).2) = cache_entry w CACHE_NAME key.
Proof.
  intros Hnd. rewrite activate_storage, filter_current_NoDup by done.
  unfold cache_entry.
  destruct (storage_lookup CACHE_NAME (storage w)) as [c|]; [|done].
  cbn [storage_match mbind option_bind]. by destruct (c !! key).
Qed.

Lemma lookup_after_activation_witness :
  storage_match "/events.json" (storage (activate world_stale).2)
  = cache_entry world_stale CACHE_NAME "/events.json".
Proof.
  apply (lookup_after_activation world_stale "/events.json").
  apply (bool_decide_unpack _). by vm_compute.
Defined.

(** ** Handle Push: the other payloads *)

(** X12.  What a payload that parses makes of the notification.  The
    payload [null] ends the listener: [data.body] throws a [TypeError] at
    line 82, before any notification is requested.  Every other payload
    gets one notification, with the fixed title, and its body is never
    empty: it is the [body] field of the payload object when that is
    truthy, and the default text in every other case (no such field, a
    falsy one, or a payload that is a number, a string, a boolean or an
    array). *)
Theorem parsed_payload_notification (d : PushMessageData) (data : JsValue)
    (w : World) :
  json d = Normal data →
  (data = JNull → push_listener (Some d) w = (Throw TypeError, w))
  ∧ (data ≠ JNull → data ≠ JUndefined →
     ∃ shown,
       push_listener (Some d) w
       = (Normal (Fulfilled ()),
          after w [ShowNotification "ShoreSquad" (options_with_body shown)])
       ∧ ToBoolean shown = true
       ∧ ((∃ fields, data = JObject fields ∧ own_property "body" fields = Some shown)
          ∨ (shown = JString DEFAULT_BODY
             ∧ ∀ fields v, data = JObject fields →
                 own_property "body" fields = Some v → ToBoolean v = false))).
Proof.
  intros Hd. split.
  { intros ->. unfold push_listener. by rewrite Hd. }
  intros Hnull Hundef.
  assert (∃ data_body, get_body data = Normal data_body
            ∧ ((∃ fields, data = JObject fields
                  ∧ own_property "body" fields = Some data_body)
               ∨ (data_body = JUndefined
                  ∧ ∀ fields v, data = JObject fields →
                      own_property "body" fields = Some v → False)))
    as (data_body & Hb & Horigin).
  { destruct data as [| |b|n|s|items|fields]; try done;
      try (exists JUndefined; split; [done |]; right; split; [done |];
           intros fields v [=]).
    cbn [get_body].
    destruct (own_property "body" fields) as [v|] eqn:Hv.
    - exists v. split; [done |]. left. by exists fields.
    - exists JUndefined. split; [done |]. right. split; [done |].
      intros fields' v [= <-]. by rewrite Hv. }
  rewrite (push_listener_parsed d data data_body w Hd Hb).
  unfold or_else. destruct (ToBoolean data_body) eqn:Htruthy.
  - exists data_body. split_and!; [done | done |].
    destruct Horigin as [|[-> _]]; [by left | done].
  - exists (JString DEFAULT_BODY). split_and!; [done | done |].
    right. split; [done |]. intros fields v -> Hv.
    destruct Horigin as [(fields' & [= <-] & Hv')|[_ Hno]].
    + congruence.
    + by destruct (Hno fields v).
Qed.

Lemma parsed_payload_notification_witness :
  (JNull = JNull →
   push_listener (Some null_payload) world_shell = (Throw TypeError, world_shell))
  ∧ (JNull ≠ JNull → JNull ≠ JUndefined →
     ∃ shown,
       push_listener (Some null_payload) world_shell
       = (Normal (Fulfilled ()),
          after world_shell [ShowNotification "ShoreSquad" (options_with_body shown)])
       ∧ ToBoolean shown = true
       ∧ ((∃ fields, JNull = JObject fields ∧ own_property "body" fields = Some shown)
          ∨ (shown = JString DEFAULT_BODY
             ∧ ∀ fields v, JNull = JObject fields →
                 own_property "body" fields = Some v → ToBoolean v = false))).
Proof.
  apply (parsed_payload_notification null_payload JNull world_shell). reflexivity.
Defined.

(** A payload that is a bare number has no [body] to show. *)
Example push_number_payload :
  push_listener (Some {| json := Normal (number 7) |}) world_empty
  = (Normal (Fulfilled ()),
     after world_empty
       [ShowNotification "ShoreSquad" (options_with_body (JString DEFAULT_BODY))]).
Proof. reflexivity. Qed.

(** ** Notification click *)

Lemma first_root_client_None i clientList :
  first_root_client i clientList = None ↔
  ∀ c, c ∈ clientList → WindowClient.url c = "/" → WindowClient.focus c = false.
Proof.
  revert i. induction clientList as [|client clientList IH]; intros i.
  - split; [by intros _ c ?%elem_of_nil | done].
  - cbn [first_root_client].
    destruct (String.eqb (WindowClient.url client) "/") eqn:Hurl;
      destruct (WindowClient.focus client) eqn:Hfocus; cbn [andb].
    + apply String.eqb_eq in Hurl. split; [done |].
      intros Hall. specialize (Hall client (list_elem_of_here _ _) Hurl). congruence.
    + rewrite IH. split.
      * intros Hall c [->|Hin]%elem_of_cons Hc; [done | by apply Hall].
      * intros Hall c Hin. apply Hall. by apply list_elem_of_further.
    + apply String.eqb_neq in Hurl. rewrite IH. split.
      * intros Hall c [->|Hin]%elem_of_cons Hc; [done | by apply Hall].
      * intros Hall c Hin. apply Hall. by apply list_elem_of_further.
    + apply String.eqb_neq in Hurl. rewrite IH. split.
      * intros Hall c [->|Hin]%elem_of_cons Hc; [done | by apply Hall].
      * intros Hall c Hin. apply Hall. by apply list_elem_of_further.
Qed.

Lemma first_root_client_Some i clientList j client :
  clientList !! j = Some client →
  WindowClient.url client = "/" → WindowClient.focus client = true →
  (∀ j' c, (j' < j)%nat → clientList !! j' = Some c →
           WindowClient.url c = "/" → WindowClient.focus c = false) →
  first_root_client i clientList = Some (i + j)%nat.
Proof.
  revert i j. induction clientList as [|c0 clientList IH]; intros i j Hj Hurl Hfocus Hfirst.
  - done.
  - cbn [first_root_client]. destruct j as [|j].
    + injection Hj as ->. rewrite Hurl, Hfocus. cbn. f_equal. lia.
    + assert (String.eqb (WindowClient.url c0) "/" && WindowClient.focus c0 = false)
        as ->.
      { destruct (String.eqb (WindowClient.url c0) "/") eqn:H0; [|done].
        apply String.eqb_eq in H0. cbn [andb].
        apply (Hfirst 0%nat c0); [lia | done | done]. }
      rewrite (IH (S i) j); [f_equal; lia | done | done | done |].
      intros j' c Hlt Hc. apply (Hfirst (S j') c); [lia | done].
Qed.

(** X13.  A click closes the notification and then does one thing at
    most.  It focuses the first client, in the order of [matchAll], whose
    URL is exactly ["/"] and that can be focused, and opens no window
    then; when no client is like that it opens ["/"], provided the worker
    can open windows at all. *)
Theorem notification_click_focuses_or_opens (clientList : list WindowClient.t)
    (openWindow : bool) :
  (∀ j client,
      clientList !! j = Some client →
      WindowClient.url client = "/" → WindowClient.focus client = true →
      (∀ j' c, (j' < j)%nat → clientList !! j' = Some c →
               WindowClient.url c = "/" → WindowClient.focus c = false) →
      notificationclick_listener clientList openWindow
      = [NotificationClose; ClientFocus j])
  ∧ ((∀ c, c ∈ clientList → WindowClient.url c = "/" → WindowClient.focus c = false) →
      notificationclick_listener clientList openWindow
      = NotificationClose :: if openWindow then [OpenWindow "/"] else []).
Proof.
  split.
  - intros j client Hj Hurl Hfocus Hfirst. unfold notificationclick_listener.
    by rewrite (first_root_client_Some 0 clientList j client Hj Hurl Hfocus Hfirst).
  - intros Hnone. unfold notificationclick_listener.
    by rewrite (proj2 (first_root_client_None 0 clientList) Hnone).
Qed.

(** The fourth client is at ["/"] as well, the second cannot be focused:
    the third is the one. *)
Example click_focuses_third :
  notificationclick_listener root_tabs true = [NotificationClose; ClientFocus 2].
Proof. reflexivity. Qed.

(** With the URLs absolute, no client is at ["/"], and every click opens
    a window though the site is open. *)
Example click_with_absolute_urls :
  notificationclick_listener two_tabs true = [NotificationClose; OpenWindow "/"].
Proof. reflexivity. Qed.

(** ** Dark mode *)

(** X14.  A toggle leaves the page in step with itself: the colour scheme,
    the stored item and the text of the button (when there is one) all
    say what [app.darkMode] says; and toggling such a page twice gives
    the page back as it was. *)
Theorem toggle_keeps_page_in_step (page : Page) :
  darkMode (toggleDarkMode page) = negb (darkMode page)
  ∧ colorScheme (toggleDarkMode page)
    = (if darkMode (toggleDarkMode page) then "dark" else "light")
  ∧ stored_darkMode (toggleDarkMode page)
    = Some (bool_to_string (darkMode (toggleDarkMode page)))
  ∧ (is_Some (toggleThemeBtn page) →
     toggleThemeBtn (toggleDarkMode page)
     = Some (if darkMode (toggleDarkMode page) then "☀️ Light Mode" else "🌙 Dark Mode"))
  ∧ (toggleThemeBtn page = None → toggleThemeBtn (toggleDarkMode page) = None)
  ∧ toggleDarkMode (toggleDarkMode (toggleDarkMode page)) = toggleDarkMode page.
Proof.
  destruct page as [dark scheme stored [text|]]; destruct dark;
    split_and!; try done; by intros [? [=]].
Qed.

(** X15.  Every visit ends in light mode.  Whatever was stored and
    whatever the system prefers, [app.darkMode] is false once the
    [DOMContentLoaded] listener has run: a page that starts dark is
    toggled at line 29, which turns it light and stores ["false"].  So a
    dark mode the visitor chose, and [toggleDarkMode] stored as ["true"],
    is undone and overwritten by the next visit. *)
Theorem visit_ends_in_light_mode (stored : option string) (prefers_dark : bool)
    (button : option string) :
  darkMode (visit stored prefers_dark button) = false
  ∧ (darkMode (initial_page stored prefers_dark button) = true →
       colorScheme (visit stored prefers_dark button) = "light"
       ∧ stored_darkMode (visit stored prefers_dark button) = Some "false")
  ∧ (darkMode (initial_page stored prefers_dark button) = false →
       visit stored prefers_dark button = initial_page stored prefers_dark button)
  ∧ (∀ page, darkMode page = false →
       darkMode (toggleDarkMode page) = true
       ∧ darkMode (visit (stored_darkMode (toggleDarkMode page)) prefers_dark button)
         = false
       ∧ stored_darkMode
           (visit (stored_darkMode (toggleDarkMode page)) prefers_dark button)
         = Some "false").
Proof.
  split_and!.
  - unfold visit, DOMContentLoaded.
    destruct (darkMode (initial_page stored prefers_dark button)) eqn:Hd; [|done].
    cbn [toggleDarkMode darkMode]. by rewrite Hd.
  - intros Hd. unfold visit, DOMContentLoaded. rewrite Hd.
    cbn [toggleDarkMode colorScheme stored_darkMode]. by rewrite Hd.
  - intros Hd. unfold visit, DOMContentLoaded. by rewrite Hd.
  - intros page Hd. unfold visit, DOMContentLoaded, toggleDarkMode, initial_page.
    cbn [darkMode stored_darkMode]. rewrite Hd. done.
Qed.

(** ** The weather cards *)

Lemma append_cons c (a b : string) : String c a ++ b = String c (a ++ b).
Proof. reflexivity. Qed.

Lemma toLowerCase_app (a b : string) :
  toLowerCase (a ++ b) = toLowerCase a ++ toLowerCase b.
Proof.
  induction a as [|c a IH]; [done |].
  rewrite append_cons. cbn [toLowerCase]. by rewrite append_cons, IH.
Qed.

Lemma prefix_app (search rest : string) : String.prefix search (search ++ rest) = true.
Proof.
  induction search as [|c search IH]; [by destruct rest |].
  rewrite append_cons. cbn [String.prefix]. by destruct (Ascii.ascii_dec c c).
Qed.

Lemma includes_unfold (text search : string) :
  includes text search
  = if String.prefix search text then true
    else match text with
         | "" => false
         | String _ text' => includes text' search
         end.
Proof. by destruct text. Qed.

Lemma includes_app (before search after : string) :
  includes (before ++ search ++ after) search = true.
Proof.
  induction before as [|c before IH].
  - change ("" ++ search ++ after) with (search ++ after).
    by rewrite includes_unfold, prefix_app.
  - rewrite append_cons, includes_unfold, IH. by destruct (String.prefix _ _).
Qed.

(** X16.  Rain wins, wherever it stands and however it is written: a
    forecast text in which the word rain or thundery occurs, in any mix
    of upper and lower case, gets the rain icon, whatever else the text
    says. *)
Theorem rain_icon_wins (before word after : string) :
  toLowerCase word = "rain" ∨ toLowerCase word = "thundery" →
  determineForecastIcon (before ++ word ++ after) = "🌧️".
Proof.
  intros Hword. unfold determineForecastIcon.
  rewrite !toLowerCase_app.
  destruct Hword as [-> | ->]; rewrite includes_app; [done |].
  by rewrite orb_true_r.
Qed.

Lemma rain_icon_wins_witness :
  determineForecastIcon ("Sunny, then " ++ "THUNDERY" ++ " showers") = "🌧️".
Proof.
  apply (rain_icon_wins "Sunny, then " "THUNDERY" " showers"). right. reflexivity.
Defined.

Lemma get_field_throw v key e : get_field v key = Throw e → e = TypeError.
Proof. destruct v; cbn; congruence. Qed.

Lemma index0_throw v e : index0 v = Throw e → e = TypeError.
Proof. destruct v as [| | | |[|]| |]; cbn; congruence. Qed.

Lemma determineForecastIcon_call_throw v e :
  determineForecastIcon_call v = Throw e → e = TypeError.
Proof. destruct v; cbn; congruence. Qed.

Lemma or_else_truthy a b : ToBoolean b = true → ToBoolean (or_else a b) = true.
Proof. intros Hb. unfold or_else. by destruct (ToBoolean a) eqn:Ha. Qed.

Ltac step_card H :=
  match type of H with
  | context [mbind _ ?c] =>
      let E := fresh "E" in
      destruct c eqn:E; cbn [mbind Completion_bind] in H;
      [ | injection H as <-;
          first [ exact (get_field_throw _ _ _ E)
                | exact (index0_throw _ _ E)
                | exact (determineForecastIcon_call_throw _ _ E)
                | destruct (ToBoolean _) in E;
                  [exact (get_field_throw _ _ _ E) | discriminate E] ] ]
  end.

(** What the callback of [map] throws is a [TypeError]. *)
Lemma forecast_card_throw f item index e :
  forecast_card f item index = Throw e → e = TypeError.
Proof.
  unfold forecast_card. intros H. do 15 step_card H. discriminate H.
Qed.

Ltac step_card_ok H :=
  match type of H with
  | context [mbind _ ?c] =>
      let E := fresh "E" in
      destruct c eqn:E; cbn [mbind Completion_bind] in H; [ | discriminate H ]
  end.

(** What a card of the API carries. *)
Lemma forecast_card_Normal f item index card :
  forecast_card f item index = Normal card →
  WeatherCard.dayIndex card = Some (S index)
  ∧ (∃ dateString, WeatherCard.date card = Some dateString
       ∧ WeatherCard.location card = "Singapore - " ++ dateString)
  ∧ ToBoolean (WeatherCard.forecast card) = true
  ∧ ToBoolean (WeatherCard.tempMin card) = true
  ∧ ToBoolean (WeatherCard.tempMax card) = true
  ∧ ToBoolean (WeatherCard.humidity card) = true
  ∧ ToBoolean (WeatherCard.humidityLow card) = true
  ∧ ToBoolean (WeatherCard.windDirection card) = true.
Proof.
  unfold forecast_card. intros H. do 15 step_card_ok H.
  injection H as <-. cbn.
  split_and!; try (by apply or_else_truthy).
  - f_equal. lia.
  - by eexists.
Qed.

Lemma map_items_Normal f items index cards :
  map_items f items index = Normal cards →
  length cards = length items
  ∧ ∀ i card, cards !! i = Some card →
      ∃ item, items !! i = Some item
              ∧ forecast_card f item (index + i) = Normal card.
Proof.
  revert index cards. induction items as [|item items IH]; intros index cards H.
  - injection H as <-. split; [done | by intros i card ?].
  - cbn [map_items] in H. do 2 step_card_ok H. injection H as <-.
    destruct (IH _ _ E0) as [Hlen Hcards]. split; [cbn; by rewrite Hlen |].
    intros [|i] card Hi.
    + injection Hi as <-. exists item. split; [done |]. by rewrite Nat.add_0_r.
    + destruct (Hcards i card Hi) as (item' & Hitem & Hcard).
      exists item'. split; [done |]. by rewrite Nat.add_succ_r.
Qed.

Lemma map_items_throw f items index e :
  map_items f items index = Throw e → e = TypeError.
Proof.
  revert index. induction items as [|item items IH]; intros index H; [done |].
  cbn [map_items] in H.
  destruct (forecast_card f item index) eqn:Hcard; cbn [mbind Completion_bind] in H.
  - destruct (map_items f items (S index)) eqn:Hrest; cbn [mbind Completion_bind] in H;
      [done |]. injection H as <-. by eapply IH.
  - injection H as <-. by eapply forecast_card_throw.
Qed.

(** A day whose [forecasts[0]] cannot be read. *)
Lemma forecast_card_broken f item index e :
  get_field item "forecasts" ≫= index0 = Throw e →
  forecast_card f item index = Throw e.
Proof.
  intros Hbroken. unfold forecast_card.
  destruct (get_field item "forecasts") as [forecasts|e'];
    cbn [mbind Completion_bind] in *; [|by injection Hbroken as ->].
  by rewrite Hbroken.
Qed.

Lemma map_items_broken f items index item e :
  item ∈ items →
  get_field item "forecasts" ≫= index0 = Throw e →
  map_items f items index = Throw TypeError.
Proof.
  intros Hin Hbroken.
  assert (∃ e', map_items f items index = Throw e') as [e' He'].
  { revert index. induction items as [|item0 items IH]; intros index.
    - by apply elem_of_nil in Hin.
    - cbn [map_items]. apply elem_of_cons in Hin as [<-|Hin].
      + rewrite (forecast_card_broken f item index e Hbroken). by eexists.
      + destruct (forecast_card f item0 index); cbn [mbind Completion_bind];
          [|by eexists].
        destruct (IH Hin (S index)) as [e' ->]. by eexists. }
  by rewrite He', (map_items_throw f items index e' He').
Qed.

Lemma processWeatherData_items f apiData items :
  get_field apiData "items" = Normal (JArray items) →
  items ≠ [] →
  processWeatherData f apiData
  = cards ← map_items f items 0; mret (take 4 cards).
Proof.
  intros Hitems Hne. unfold processWeatherData. rewrite Hitems.
  cbn [mbind Completion_bind ToBoolean negb orb length_is_0].
  by rewrite bool_decide_eq_false_2.
Qed.

(** The ways [processWeatherData] ends. *)
Lemma processWeatherData_cases f apiData :
  processWeatherData f apiData = Throw TypeError
  ∨ processWeatherData f apiData = Normal getMockWeatherData
  ∨ ∃ items cards,
      get_field apiData "items" = Normal (JArray items)
      ∧ items ≠ []
      ∧ map_items f items 0 = Normal cards
      ∧ processWeatherData f apiData = Normal (take 4 cards).
Proof.
  destruct (get_field apiData "items") as [v|e] eqn:Hitems.
  2: { left. unfold processWeatherData. rewrite Hitems.
       by rewrite (get_field_throw _ _ _ Hitems). }
  destruct v as [| |b|n|s|[|item items]|fields];
    try (right; left; unfold processWeatherData; rewrite Hitems; reflexivity).
  - unfold processWeatherData. rewrite Hitems. cbn [mbind Completion_bind].
    destruct (negb (ToBoolean (JBool b)) || length_is_0 (JBool b));
      [by right; left | by left].
  - unfold processWeatherData. rewrite Hitems. cbn [mbind Completion_bind].
    destruct (negb (ToBoolean (JNumber n)) || length_is_0 (JNumber n));
      [by right; left | by left].
  - unfold processWeatherData. rewrite Hitems. cbn [mbind Completion_bind].
    destruct (negb (ToBoolean (JString s)) || length_is_0 (JString s));
      [by right; left | by left].
  - rewrite (processWeatherData_items f apiData (item :: items) Hitems) by done.
    destruct (map_items f (item :: items) 0) as [cards|e] eqn:Hmap.
    + right. right. by exists (item :: items), cards.
    + left. by rewrite (map_items_throw _ _ _ _ Hmap).
  - unfold processWeatherData. rewrite Hitems. cbn [mbind Completion_bind].
    destruct (negb (ToBoolean (JObject fields)) || length_is_0 (JObject fields));
      [by right; left | by left].
Qed.

Lemma getMockWeatherData_truthy :
  Forall (λ card,
            ToBoolean (WeatherCard.forecast card) = true
            ∧ ToBoolean (WeatherCard.tempMin card) = true
            ∧ ToBoolean (WeatherCard.tempMax card) = true
            ∧ ToBoolean (WeatherCard.humidity card) = true
            ∧ ToBoolean (WeatherCard.humidityLow card) = true
            ∧ ToBoolean (WeatherCard.windDirection card) = true)
    getMockWeatherData.
Proof. repeat constructor. Qed.

(** X17.  [processWeatherData] hands over one to four cards.  They are
    either the four mock cards or the cards of the first four days of the
    API answer, in the order of the answer, one per day, numbered 1, 2, 3,
    4 in [dayIndex]. *)
Theorem forecast_cards_numbered (f : JsValue → string) (apiData : JsValue)
    (cards : list WeatherCard.t) :
  processWeatherData f apiData = Normal cards →
  (1 ≤ length cards ≤ 4)%nat
  ∧ (cards = getMockWeatherData
     ∨ ∃ items,
         get_field apiData "items" = Normal (JArray items)
         ∧ length cards = (length items `min` 4)%nat
         ∧ ∀ i card, cards !! i = Some card →
             WeatherCard.dayIndex card = Some (S i)
             ∧ ∃ item, items !! i = Some item
                       ∧ forecast_card f item i = Normal card).
Proof.
  intros Hcards.
  destruct (processWeatherData_cases f apiData)
    as [Hthrow|[Hmock|(items & cards0 & Hitems & Hne & Hmap & Hok)]].
  - congruence.
  - assert (cards = getMockWeatherData) as -> by congruence.
    split; [cbn; lia | by left].
  - assert (cards = take 4 cards0) as -> by congruence.
    destruct (map_items_Normal f items 0 cards0 Hmap) as [Hlen Hcard].
    rewrite length_take, Hlen.
    split; [destruct items; [done | cbn [length]; lia] |].
    right. exists items. split_and!; [done | lia |].
    intros i card [Hi _]%lookup_take_Some.
    destruct (Hcard i card Hi) as (item & Hitem & Hfc).
    split; [|by exists item].
    by destruct (forecast_card_Normal f item i card Hfc) as [-> _].
Qed.

Lemma forecast_cards_numbered_witness :
  (1 ≤ length six_days_cards ≤ 4)%nat
  ∧ (six_days_cards = getMockWeatherData
     ∨ ∃ items,
         get_field (api_answer six_days) "items" = Normal (JArray items)
         ∧ length six_days_cards = (length items `min` 4)%nat
         ∧ ∀ i card, six_days_cards !! i = Some card →
             WeatherCard.dayIndex card = Some (S i)
             ∧ ∃ item, items !! i = Some item
                       ∧ forecast_card plain_date item i = Normal card).
Proof.
  apply (forecast_cards_numbered plain_date (api_answer six_days) six_days_cards).
  reflexivity.
Defined.

(** X18.  [map] runs before [slice]: one day whose [forecasts[0]] cannot
    be read, be it the fifth day or later, makes [processWeatherData]
    throw, and [loadWeatherData] then shows the mock cards instead of the
    days that were fine. *)
Theorem broken_day_discards_forecast (f : JsValue → string) (apiData : JsValue)
    (items : list JsValue) (item : JsValue) (e : JsError) :
  get_field apiData "items" = Normal (JArray items) →
  item ∈ items →
  get_field item "forecasts" ≫= index0 = Throw e →
  processWeatherData f apiData = Throw TypeError
  ∧ loadWeatherData f (Fulfilled apiData) = (Some TypeError, getMockWeatherData).
Proof.
  intros Hitems Hin Hbroken.
  assert (processWeatherData f apiData = Throw TypeError) as Hthrow.
  { rewrite (processWeatherData_items f apiData items Hitems).
    - by rewrite (map_items_broken f items 0 item e Hin Hbroken).
    - intros ->. by apply elem_of_nil in Hin. }
  split; [done |]. unfold loadWeatherData. by rewrite Hthrow.
Qed.

Lemma broken_day_discards_forecast_witness :
  processWeatherData plain_date (api_answer five_days_last_broken) = Throw TypeError
  ∧ loadWeatherData plain_date (Fulfilled (api_answer five_days_last_broken))
    = (Some TypeError, getMockWeatherData).
Proof.
  apply (broken_day_discards_forecast plain_date (api_answer five_days_last_broken)
           five_days_last_broken api_day_broken TypeError).
  - reflexivity.
  - do 4 apply list_elem_of_further. apply list_elem_of_here.
  - reflexivity.
Defined.


(** X20.  No card has a blank where a reading belongs: on every card that
    [processWeatherData] hands over, the forecast text, both temperatures,
    both humidities and the wind direction are truthy.  What the API
    leaves out, or sends as 0, an empty string or [null], appears as the
    placeholder of lines 220-226. *)
Theorem card_readings_never_blank (f : JsValue → string) (apiData : JsValue)
    (cards : list WeatherCard.t) (card : WeatherCard.t) :
  processWeatherData f apiData = Normal cards →
  card ∈ cards →
  ToBoolean (WeatherCard.forecast card) = true
  ∧ ToBoolean (WeatherCard.tempMin card) = true
  ∧ ToBoolean (WeatherCard.tempMax card) = true
  ∧ ToBoolean (WeatherCard.humidity card) = true
  ∧ ToBoolean (WeatherCard.humidityLow card) = true
  ∧ ToBoolean (WeatherCard.windDirection card) = true.
Proof.
  intros Hcards Hin.
  destruct (processWeatherData_cases f apiData)
    as [Hthrow|[Hmock|(items & cards0 & Hitems & Hne & Hmap & Hok)]].
  - congruence.
  - assert (cards = getMockWeatherData) as -> by congruence.
    pose proof getMockWeatherData_truthy as Hall.
    rewrite Forall_forall in Hall. by apply Hall.
  - assert (cards = take 4 cards0) as -> by congruence.
    apply elem_of_take in Hin as (i & Hi & _).
    destruct (map_items_Normal f items 0 cards0 Hmap) as [_ Hcard].
    destruct (Hcard i card Hi) as (item & _ & Hfc).
    by destruct (forecast_card_Normal f item i card Hfc) as (_ & _ & ?).
Qed.

Lemma card_readings_never_blank_witness :
  ToBoolean (WeatherCard.forecast blank_day_card) = true
  ∧ ToBoolean (WeatherCard.tempMin blank_day_card) = true
  ∧ ToBoolean (WeatherCard.tempMax blank_day_card) = true
  ∧ ToBoolean (WeatherCard.humidity blank_day_card) = true
  ∧ ToBoolean (WeatherCard.humidityLow blank_day_card) = true
  ∧ ToBoolean (WeatherCard.windDirection blank_day_card) = true.
Proof.
  apply (card_readings_never_blank plain_date (api_answer [api_blank_day])
           [blank_day_card] blank_day_card).
  - reflexivity.
  - apply list_elem_of_here.
Defined.
